(** * conflict-vetter: a shallow embedding of [conflict-vetter.py]

    The script reads three HotCRP exports (PC info, authors, PC conflicts),
    keeps the conflicts worth vetting, obscures every paper number behind a
    token, writes the token table [uidmap.csv] and mails (or prints) one
    message per reviewer.

    Text is modelled as [string] (sequences of 8-bit characters), a
    Python [str] by its UTF-8 encoding.  On ASCII data slicing and
    [str.lower] act character by character; on other text [str.lower]
    follows the Unicode tables of the interpreter, which the model leaves
    to the environment.  The csv reader is taken to deliver rows that carry
    the required columns.

    What the script leaves to its environment is a parameter of the model
    (record [world]): the draws of [random.shuffle], the iteration order of
    a [set], the bytes of [os.urandom], the bcrypt digest, the fate of
    each SMTP call and the Unicode case tables.  A run is a function from
    an initial [state] to a result, a final state and the list of the
    events it caused (file writes, console lines, SMTP calls), in order. *)

From stdpp Require Import gmap strings list fin_maps pretty sorting.
From Stdlib Require Import Ascii NArith.

#[local] Set Warnings "-clear-no-such-hyp".

(** ** Exceptions and results *)

Inductive exn :=
  | IndexError
  | TypeError
  | SystemExit (code : Z)
  | SMTPException.

Inductive result (A : Type) :=
  | Ok (a : A)
  | Raise (e : exn).
Arguments Ok {A} a.
Arguments Raise {A} e.

Definition rbind {A B} (r : result A) (k : A → result B) : result B :=
  match r with
  | Ok a => k a
  | Raise e => Raise e
  end.

Fixpoint rmap {A B} (f : A → result B) (l : list A) : result (list B) :=
  match l with
  | [] => Ok []
  | x :: l' => rbind (f x) (λ y, rbind (rmap f l') (λ ys, Ok (y :: ys)))
  end.

(** ** Python string primitives *)

Module Py.

(** [s.split(sep)] for a one-character separator. *)
Fixpoint split (sep : ascii) (s : string) : list string :=
  match s with
  | EmptyString => [EmptyString]
  | String c s' =>
      if Ascii.eqb c sep then EmptyString :: split sep s'
      else match split sep s' with
           | [] => [String c EmptyString]
           | w :: ws => String c w :: ws
           end
  end.

(** [l[i]] for [i >= 0]. *)
Definition index {A} (l : list A) (i : nat) : result A :=
  match l !! i with
  | Some x => Ok x
  | None => Raise IndexError
  end.

(** [s[:-1]] *)
Fixpoint drop_last (s : string) : string :=
  match s with
  | EmptyString => EmptyString
  | String c s' =>
      match s' with
      | EmptyString => EmptyString
      | String _ _ => String c (drop_last s')
      end
  end.

Fixpoint take (n : nat) (s : string) : string :=
  match n, s with
  | S n', String c s' => String c (take n' s')
  | _, _ => EmptyString
  end.

Fixpoint drop (n : nat) (s : string) : string :=
  match n, s with
  | S n', String _ s' => drop n' s'
  | _, _ => s
  end.

(** [s[i:j]] for [0 <= i <= j]. *)
Definition slice (i j : nat) (s : string) : string := take (j - i) (drop i s).

(** [s.isascii()] *)
Fixpoint isascii (s : string) : bool :=
  match s with
  | EmptyString => true
  | String c s' => (nat_of_ascii c <? 128)%nat && isascii s'
  end.

Definition lower_char (c : ascii) : ascii :=
  let n := nat_of_ascii c in
  if (65 <=? n)%nat && (n <=? 90)%nat then ascii_of_nat (n + 32) else c.

(** [A-Z] to [a-z], every other character kept. *)
Fixpoint lower_ascii (s : string) : string :=
  match s with
  | EmptyString => EmptyString
  | String c s' => String (lower_char c) (lower_ascii s')
  end.

(** [s.lower()].  On ASCII text it lower-cases the letters [A-Z]; on any
    other text it follows the case tables of the interpreter's Unicode
    database, here [unicode_lower] (on the UTF-8 encoding of the text). *)
Definition lower (unicode_lower : string → string) (s : string) : string :=
  if isascii s then lower_ascii s else unicode_lower s.

(** [bool(x)] for an optional string: [None] and [EmptyString] are false. *)
Definition truthy (x : option string) : bool :=
  match x with
  | Some (String _ _) => true
  | _ => false
  end.

(** [a + b] where [b] may be [None]. *)
Definition add (a : string) (b : option string) : result string :=
  match b with
  | Some b => Ok (a +:+ b)
  | None => Raise TypeError
  end.

(** [x in l] *)
Definition mem (x : string) (l : list string) : bool := bool_decide (x ∈ l).

Definition hex_digit (n : nat) : ascii :=
  ascii_of_nat (if (n <? 10)%nat then 48 + n else 87 + n).

(** One byte as [repr] of a [bytes] object shows it, inside quote [q]. *)
Definition repr_byte (q : ascii) (c : ascii) : string :=
  let n := nat_of_ascii c in
  if Ascii.eqb c q || Ascii.eqb c "\"%char then String "\"%char (String c EmptyString)
  else if (n =? 9)%nat then "\t"
  else if (n =? 10)%nat then "\n"
  else if (n =? 13)%nat then "\r"
  else if (n <? 32)%nat || (127 <=? n)%nat then
    String "\"%char (String "x"%char
      (String (hex_digit (n / 16)) (String (hex_digit (n mod 16)) EmptyString)))
  else String c EmptyString.

Fixpoint repr_body (q : ascii) (s : string) : string :=
  match s with
  | EmptyString => EmptyString
  | String c s' => repr_byte q c +:+ repr_body q s'
  end.

Fixpoint contains (c : ascii) (s : string) : bool :=
  match s with
  | EmptyString => false
  | String c' s' => Ascii.eqb c' c || contains c s'
  end.

Definition squote : ascii := ascii_of_nat 39.
Definition dquote : ascii := ascii_of_nat 34.

(** [str(b)] for a [bytes] object [b]: the literal [b'...']. *)
Definition str_bytes (b : string) : string :=
  let q := if contains squote b && negb (contains dquote b) then dquote else squote in
  String "b"%char (String q (repr_body q b +:+ String q EmptyString)).

End Py.

(** ** Input rows *)

Record pcinfo_row := { pc_email : string; pc_first : string; pc_last : string }.
Record author_row :=
  { au_paper : string; au_first : string; au_last : string; au_email : string }.
Record conflict_row := { cf_email : string; cf_paper : string; cf_conflicttype : string }.

(** ** The environment

    Everything the script does not decide itself: the random numbers behind
    [random.shuffle], the iteration order of a [set], the bytes of
    [os.urandom], the bcrypt key schedule, the fate of SMTP calls and the
    case tables of the interpreter's Unicode database. *)

Record world := {
  W_random : nat → nat;                 (* the k-th random draw *)
  W_set_order : list string → nat → nat; (* draws that order a given set *)
  W_urandom : nat → ascii;              (* the k-th byte of os.urandom *)
  W_bcrypt_raw : string → string → list ascii; (* password, salt ↦ raw digest *)
  W_smtp_ok : nat → bool;               (* does the k-th SMTP call succeed *)
  W_str_lower : string → string         (* str.lower() on text that is not ASCII *)
}.

(** ** Loader *)

Definition names_step (w : world) (names : gmap string string) (row : pcinfo_row)
    : gmap string string :=
  let key := Py.lower (W_str_lower w) (pc_email row) in
  let value := pc_first row +:+ " " +:+ pc_last row in
  <[key := value]> names.

Definition load_names (w : world) (rows : list pcinfo_row) : gmap string string :=
  foldl (names_step w) ∅ rows.

Definition allAuthors_step (allAuthors : gmap string (list string)) (row : author_row)
    : gmap string (list string) :=
  let key := au_paper row in
  let value := au_first row +:+ " " +:+ au_last row +:+ " <" +:+ au_email row +:+ ">" in
  <[key := (allAuthors !!! key) ++ [value]]> allAuthors.

Definition load_allAuthors (rows : list author_row) : gmap string (list string) :=
  foldl allAuthors_step ∅ rows.

(** The second pass over the authors export; the script builds this list
    and never reads it. *)
Definition load_authorsList (rows : list author_row) : list string :=
  foldl (λ authorsList row, authorsList ++ [au_email row]) [] rows.

(** [x[i], x[j] = x[j], x[i]] *)
Definition swap {A} (i j : nat) (x : list A) : list A :=
  match x !! i, x !! j with
  | Some a, Some b => <[i := b]> (<[j := a]> x)
  | _, _ => x
  end.

(** [random.shuffle]: for [i] from [len(x) - 1] down to [1], draw
    [j = randbelow(i + 1)] and swap [x[i]] with [x[j]].  [shuffle_from i]
    runs the iterations [i, i - 1, ..., 1]; [pos] counts the draws. *)
Fixpoint shuffle_from {A} (draw : nat → nat) (i : nat) (x : list A) (pos : nat)
    : list A * nat :=
  match i with
  | 0 => (x, pos)
  | S i' =>
      let j := draw pos `mod` (i + 1) in
      shuffle_from draw i' (swap i j x) (S pos)
  end.

Definition shuffle {A} (draw : nat → nat) (x : list A) (pos : nat) : list A * nat :=
  shuffle_from draw (length x - 1) x pos.

(** [list(set(l))]: the distinct elements of [l] in an order the script
    does not control. *)
Definition list_of_set (w : world) (l : list string) : list string :=
  let elems := remove_dups l in
  (shuffle (W_set_order w elems) elems 0).1.

(** ** bcrypt (the library's output format) *)

Module Bcrypt.

Definition alphabet : list ascii :=
  String.list_ascii_of_string
    "./ABCDEFGHIJKLMNOPQRSTUVWXYZabcdefghijklmnopqrstuvwxyz0123456789".

(** [Base64Code[n]]; the encoder only asks for [n < 64]. *)
Definition code (n : N) : ascii := nth (N.to_nat n) alphabet "."%char.

(** bcrypt's own base64: three bytes become four characters, no padding. *)
Fixpoint encode_base64 (p : list ascii) : string :=
  match p with
  | [] => EmptyString
  | c1 :: p1 =>
      let c1 := N_of_ascii c1 in
      String (code (N.shiftr c1 2))
        match p1 with
        | [] => String (code (N.shiftl (N.land c1 3) 4)) EmptyString
        | c2 :: p2 =>
            let c2 := N_of_ascii c2 in
            String (code (N.lor (N.shiftl (N.land c1 3) 4) (N.land (N.shiftr c2 4) 15)))
              match p2 with
              | [] => String (code (N.shiftl (N.land c2 15) 2)) EmptyString
              | c3 :: p3 =>
                  let c3 := N_of_ascii c3 in
                  String (code (N.lor (N.shiftl (N.land c2 15) 2)
                                      (N.land (N.shiftr c3 6) 3)))
                    (String (code (N.land c3 63)) (encode_base64 p3))
              end
        end
  end.

(** [bcrypt.gensalt()]: sixteen bytes of [os.urandom], encoded, behind the
    prefix for version 2b and 12 rounds. *)
Definition gensalt (w : world) (pos : nat) : string * nat :=
  ("$2b$12$" +:+ encode_base64 (W_urandom w <$> seq pos 16), pos + 16).

(** [bcrypt.hashpw(password, salt)]: the salt followed by the encoded digest. *)
Definition hashpw (w : world) (password salt : string) : string :=
  salt +:+ encode_base64 (W_bcrypt_raw w password salt).

End Bcrypt.

(** ** Filter and grouper *)

(** An insertion-ordered [defaultdict(list)]. *)
Fixpoint od_append {V} (k : string) (v : V) (d : list (string * list V))
    : list (string * list V) :=
  match d with
  | [] => [(k, [v])]
  | (k', vs) :: d' =>
      if decide (k' = k) then (k', vs ++ [v]) :: d' else (k', vs) :: od_append k v d'
  end.

Fixpoint od_get {V} (k : string) (d : list (string * list V)) : list V :=
  match d with
  | [] => []
  | (k', vs) :: d' => if decide (k' = k) then vs else od_get k d'
  end.

Definition od_keys {V} (d : list (string * list V)) : list string := d.*1.

Definition kept_types : list string := ["Pinned conflict"; "Personal"; "Other"].
Definition webmail : list string := ["outlook.com"; "yahoo.com"; "gmail.com"].

(** [name.split("<")[1].split("@")[1][:-1]] *)
Definition author_domain (name : string) : result string :=
  rbind (Py.index (Py.split "<" name) 1) (λ a,
  rbind (Py.index (Py.split "@" a) 1) (λ b,
  Ok (Py.drop_last b))).

(** The [try] block: does the recipient's domain occur among the authors'
    domains?  Any exception while the list of domains is built ends the
    block, and the bare [except] lets the row through. *)
Definition domain_match (recipient_domain : string) (alist : list string) : bool :=
  match rmap author_domain alist with
  | Ok domains => Py.mem recipient_domain domains
  | Raise _ => false
  end.

Definition conflicts_t : Type := list (string * list (string * list string)).
Abbreviation conflict_types_t := (gmap string (gmap string string)).

(** One row of the conflicts export: [Ok None] is [continue]. *)
Definition vet (w : world) (allAuthors : gmap string (list string)) (row : conflict_row)
    : result (option (string * list string)) :=
  let alist := list_of_set w (allAuthors !!! cf_paper row) in
  rbind (Py.index (Py.split "@" (cf_email row)) 1) (λ recipient_domain,
  if negb (Py.mem (cf_conflicttype row) kept_types) then Ok None
  else if Py.mem recipient_domain webmail then Ok (Some (cf_paper row, alist))
  else if domain_match recipient_domain alist then Ok None
  else Ok (Some (cf_paper row, alist))).

Definition conflicts_step (w : world) (allAuthors : gmap string (list string))
    (acc : conflicts_t * conflict_types_t) (row : conflict_row)
    : result (conflicts_t * conflict_types_t) :=
  rbind (vet w allAuthors row) (λ v,
  match v with
  | None => Ok acc
  | Some entry =>
      Ok (od_append (cf_email row) entry acc.1,
          <[cf_email row := <[cf_paper row := cf_conflicttype row]> (acc.2 !!! cf_email row)]>
            acc.2)
  end).

Fixpoint rfoldl {A B} (f : A → B → result A) (a : A) (l : list B) : result A :=
  match l with
  | [] => Ok a
  | x :: l' => rbind (f a x) (λ a', rfoldl f a' l')
  end.

Definition load_conflicts (w : world) (allAuthors : gmap string (list string))
    (rows : list conflict_row) : result (conflicts_t * conflict_types_t) :=
  rfoldl (conflicts_step w allAuthors) ([], ∅) rows.

(** [for k in conflicts: random.shuffle(conflicts[k])], in insertion order. *)
Fixpoint shuffle_conflicts (w : world) (conflicts : conflicts_t) (pos : nat)
    : conflicts_t * nat :=
  match conflicts with
  | [] => ([], pos)
  | (k, c) :: rest =>
      let '(c', pos') := shuffle (W_random w) c pos in
      let '(rest', pos'') := shuffle_conflicts w rest pos' in
      ((k, c') :: rest', pos'')
  end.

(** ** Effects: files, console, SMTP *)

Inductive smtp_op :=
  | Connect (host : string) (port : nat)
  | Ehlo
  | Starttls
  | Login (user : string) (password : option string)
  | Sendmail (from_addr to_addr msg : string)
  | Quit.

Inductive event :=
  | EOpenW (path : string)               (* open(path, "w") *)
  | EWrite (path data : string)          (* f.write(data) *)
  | EClose (path : string)
  | EPrint (line : string)               (* print(line) *)
  | EPrintHelp
  | ESleep (seconds : nat)
  | ESmtp (op : smtp_op).

Record state := { urandom_pos : nat; smtp_calls : nat }.

Definition M (A : Type) : Type := state → result A * state * list event.

Definition ret {A} (a : A) : M A := λ s, (Ok a, s, []).

Definition bind {A B} (m : M A) (k : A → M B) : M B := λ s,
  match m s with
  | (Ok a, s', evs) => let '(r, s'', evs') := k a s' in (r, s'', evs ++ evs')
  | (Raise e, s', evs) => (Raise e, s', evs)
  end.

#[global] Instance M_ret : MRet M := @ret.
#[global] Instance M_bind : MBind M := λ A B k m, bind m k.

Definition lift {A} (r : result A) : M A := λ s, (r, s, []).
Definition raise {A} (e : exn) : M A := lift (Raise e).
Definition emit (ev : event) : M unit := λ s, (Ok tt, s, [ev]).
Definition when (b : bool) (m : M unit) : M unit := if b then m else ret tt.

(** A call into [smtplib]: it either returns or raises. *)
Definition smtp (w : world) (op : smtp_op) : M unit := λ s,
  (if W_smtp_ok w (smtp_calls s) then Ok tt else Raise SMTPException,
   {| urandom_pos := urandom_pos s; smtp_calls := S (smtp_calls s) |},
   [ESmtp op]).

Definition gensalt (w : world) : M string := λ s,
  let '(salt, pos) := Bcrypt.gensalt w (urandom_pos s) in
  (Ok salt, {| urandom_pos := pos; smtp_calls := smtp_calls s |}, []).

Fixpoint mfoldl {A B} (f : A → B → M A) (a : A) (l : list B) : M A :=
  match l with
  | [] => ret a
  | x :: l' => a' ← f a x; mfoldl f a' l'
  end.

Fixpoint mfor {B} (l : list B) (f : B → M unit) : M unit :=
  match l with
  | [] => ret tt
  | x :: l' => f x;; mfor l' f
  end.

(** The contents of file [path] once the events [evs] have happened. *)
Fixpoint file_after (path : string) (content : string) (evs : list event) : string :=
  match evs with
  | [] => content
  | EOpenW p :: evs' => file_after path (if decide (p = path) then EmptyString else content) evs'
  | EWrite p data :: evs' =>
      file_after path (if decide (p = path) then content +:+ data else content) evs'
  | _ :: evs' => file_after path content evs'
  end.

(** ** Notifier *)

Definition nl : string := String (ascii_of_nat 10) EmptyString.

Definition uidmap_csv : string := "uidmap.csv".

Definition preamble : string :=
  "This mail contains a list of all papers for which you have been marked" +:+ nl +:+
  "as a conflict. The actual paper numbers have been encrypted." +:+ nl +:+ nl +:+
  "Please check each author list to verify that at least one of the authors for" +:+ nl +:+
  "each paper looks like a legitimate conflict. IF NOT, please enter each one on this form:"
  +:+ nl +:+ nl +:+ "  ".

(** The inner loop over the author list [l]: [i] authors are already out. *)
Fixpoint authors_text (i len : nat) (l : list string) : string :=
  match l with
  | [] => EmptyString
  | k :: l' => k +:+ (if decide (S i ≠ len) then ", " else EmptyString) +:+ authors_text (S i) len l'
  end.

Definition relabel (ctype : string) : string :=
  if decide (ctype = "Pinned conflict")
  then "Auto-detected conflict (probably institutional)"
  else ctype.

Definition reduced_uid_of (uid : string) : string := Py.slice 9 21 (Py.str_bytes uid).

Definition uidmap_row (recipient paper_id reduced_uid : string) : string :=
  recipient +:+ "," +:+ paper_id +:+ "," +:+ reduced_uid +:+ nl.

Definition conflict_line (ind : nat) (reduced_uid ctype : string) (l : list string) : string :=
  pretty ind +:+ ". " +:+ "(UID = " +:+ reduced_uid +:+ ") - " +:+
  relabel ctype +:+ " : " +:+ authors_text 0 (length l) l +:+ nl.

Section Notifier.
Context (w : world).
Context (hashcode senderName senderFirstName sender : string).
Context (form_url : option string) (reallySendMail : bool).
Context (names : gmap string string).
Context (conflicts : conflicts_t) (conflict_types : gmap string (gmap string string)).

(** The obfuscation step: hash the key under a fresh salt, cut the token
    out of the printed hash and record it in the audit file. *)
Definition obfuscate (recipient paper_id : string) : M string :=
  let key := recipient +:+ hashcode +:+ paper_id in
  salt ← gensalt w;
  let uid := Bcrypt.hashpw w key salt in
  let reduced_uid := reduced_uid_of uid in
  emit (EWrite uidmap_csv (uidmap_row recipient paper_id reduced_uid));;
  mret reduced_uid.

(** [conflict_types[recipient][paper_id]] on the nested [defaultdict]. *)
Definition ctype_of (recipient paper_id : string) : string :=
  default EmptyString ((conflict_types !!! recipient) !! paper_id).

(** One turn of [for (paper_id, l) in c]; the accumulator is [(msg, ind)]. *)
Definition paper_step (recipient : string) (acc : string * nat)
    (entry : string * list string) : M (string * nat) :=
  let '(msg, ind) := acc in
  let '(paper_id, l) := entry in
  reduced_uid ← obfuscate recipient paper_id;
  let ctype := ctype_of recipient paper_id in
  mret (msg +:+ conflict_line ind reduced_uid ctype l, S ind).

(** The name after [Subject: Conflicts to vet: ]. *)
Definition display_name (recipient : string) : string :=
  match names !! Py.lower (W_str_lower w) recipient with
  | Some name => name
  | None => recipient
  end.

Definition greeting (recipient : string) : string :=
  "From: " +:+ senderName +:+ nl +:+ "Subject: Conflicts to vet: " +:+
  display_name recipient +:+ nl +:+ nl +:+ "Hi," +:+ nl +:+ nl.

Definition closing : string :=
  nl +:+ nl +:+ "Thanks," +:+ nl +:+ senderFirstName +:+ nl.

Definition compose (recipient : string) : M string :=
  let msg := greeting recipient in
  body ← lift (Py.add preamble form_url);
  let msg := msg +:+ body +:+ "." +:+ nl +:+ nl in
  let c := od_get recipient conflicts in
  '(msg, _) ← mfoldl (paper_step recipient) (msg, 1) c;
  mret (msg +:+ closing).

Definition deliver (recipient text_msg : string) : M unit :=
  if reallySendMail then
    emit (EPrint ("Sending mail to " +:+ recipient +:+ "..."));;
    smtp w (Sendmail sender recipient text_msg)
  else
    emit (EPrint ("not sending mail to " +:+ recipient));;
    emit (EPrint "(use --really-send to actually send mail)");;
    emit (EPrint (Py.str_bytes text_msg)).

Definition notify (recipient : string) : M unit :=
  when reallySendMail (emit (ESleep 1));;
  msg ← compose recipient;
  deliver recipient msg.

End Notifier.

(** ** The script *)

Record args_t := {
  conference : option string;
  hashcode : option string;
  your_name : option string;
  your_email : option string;
  your_password : option string;
  form_url : option string;
  really_send : option string
}.

Definition main (w : world) (args : args_t) (pcinfo : list pcinfo_row)
    (authors : list author_row) (pcconflicts : list conflict_row) : M unit :=
  if negb (Py.truthy (conference args)) || negb (Py.truthy (hashcode args))
     || negb (Py.truthy (your_name args))
  then emit EPrintHelp;; raise (SystemExit (-1))
  else
    let hashcode := default EmptyString (hashcode args) in
    let your_name := default EmptyString (your_name args) in
    let reallySendMail := Py.truthy (really_send args) in
    let senderFirstName := your_name in
    senderName ← lift (rbind (Py.add (your_name +:+ " <") (your_email args))
                                 (λ x, Ok (x +:+ ">")));
    let sender := default EmptyString (your_email args) in
    let password := your_password args in
    let names := load_names w pcinfo in
    let allAuthors := load_allAuthors authors in
    '(conflicts, conflict_types) ← lift (load_conflicts w allAuthors pcconflicts);
    let conflicts := (shuffle_conflicts w conflicts 0).1 in
    let authorsList := load_authorsList authors in
    emit (EOpenW uidmap_csv);;
    emit (EWrite uidmap_csv ("email,paper,uid" +:+ nl));;
    when reallySendMail
      (smtp w (Connect "smtp.gmail.com" 587);; smtp w Ehlo;; smtp w Starttls;;
       smtp w (Login sender password));;
    let s := merge_sort String.le (od_keys conflicts) in
    mfor s (notify w hashcode senderName senderFirstName sender (form_url args)
              reallySendMail names conflicts conflict_types);;
    when reallySendMail (smtp w Quit);;
    emit (EClose uidmap_csv).

Definition initial : state := {| urandom_pos := 0; smtp_calls := 0 |}.

(** ** Vocabulary for the statements *)

(** The token that the obfuscation step derives when its salt is read at
    position [pos] of the [os.urandom] stream. *)
Definition token (w : world) (hashcode recipient paper_id : string) (pos : nat) : string :=
  reduced_uid_of
    (Bcrypt.hashpw w (recipient +:+ hashcode +:+ paper_id) (Bcrypt.gensalt w pos).1).

(** The random part of that salt, as it is encoded. *)
Definition salt_text (w : world) (pos : nat) : string :=
  Bcrypt.encode_base64 (W_urandom w <$> seq pos 16).

Fixpoint all_chars (P : ascii → bool) (s : string) : bool :=
  match s with
  | EmptyString => true
  | String c s' => P c && all_chars P s'
  end.

(** Characters that [str] of a [bytes] object shows as they are. *)
Definition shown_verbatim (c : ascii) : bool :=
  bool_decide (Py.repr_byte Py.squote c = String c EmptyString) && negb (Ascii.eqb c Py.squote).

(** The obfuscation step run twice in a row on the same input. *)
Definition obfuscate_twice (w : world) (hashcode recipient paper_id : string)
    : M (string * string) :=
  t1 ← obfuscate w hashcode recipient paper_id;
  t2 ← obfuscate w hashcode recipient paper_id;
  mret (t1, t2).

(** A world whose first two salts differ in their last byte only. *)
Definition world_close_salts : world :=
  {| W_random := λ _, 0;
     W_set_order := λ _ _, 0;
     W_urandom := λ k, if k =? 31 then "001"%char else "000"%char;
     W_bcrypt_raw := λ _ _, [];
     W_smtp_ok := λ _, true;
     W_str_lower := λ s, s |}.

Definition pcinfo_alice : list pcinfo_row :=
  [ {| pc_email := "Alice@Univ.EDU"; pc_first := "Alice"; pc_last := "Ames" |} ].

(** The name of a row of the reviewer-info export, as [names] stores it. *)
Definition full_name (row : pcinfo_row) : string := pc_first row +:+ " " +:+ pc_last row.

(** Does a row of the conflicts export pass the filter? *)
Definition is_kept (w : world) (allAuthors : gmap string (list string))
    (row : conflict_row) : bool :=
  match vet w allAuthors row with
  | Ok (Some _) => true
  | _ => false
  end.

(** The rows of the conflicts export that pass the filter, in file order. *)
Definition surviving (w : world) (authors : list author_row)
    (pcconflicts : list conflict_row) : list conflict_row :=
  filter (λ row, is_kept w (load_allAuthors authors) row) pcconflicts.

(** What [conflicts] stores for a surviving row. *)
Definition record_in (w : world) (allAuthors : gmap string (list string))
    (row : conflict_row) : string * list string :=
  (cf_paper row, list_of_set w (allAuthors !!! cf_paper row)).

Definition record_of (w : world) (authors : list author_row) (row : conflict_row)
    : string * list string :=
  record_in w (load_allAuthors authors) row.

(** One rendered conflict and one message, as data. *)
Record entry := {
  en_paper : string;
  en_authors : list string;
  en_ctype : string;
  en_uid : string
}.

Record letter := { lt_recipient : string; lt_entries : list entry }.

Definition header_row : string := "email,paper,uid" +:+ nl.

Section Script.
Context (w : world).
Context (hashcode senderName senderFirstName sender : string).
Context (password : option string) (url : string) (reallySendMail : bool).
Context (names : gmap string string).
Context (conflicts : conflicts_t) (conflict_types : gmap string (gmap string string)).

(** The entries of a message whose first salt is read at [pos]. *)
Fixpoint entries_at (recipient : string) (c : list (string * list string)) (pos : nat)
    : list entry :=
  match c with
  | [] => []
  | (paper_id, l) :: c' =>
      {| en_paper := paper_id;
         en_authors := l;
         en_ctype := ctype_of conflict_types recipient paper_id;
         en_uid := token w hashcode recipient paper_id pos |}
      :: entries_at recipient c' (pos + 16)
  end.

(** The message to [recipient] when its first salt is read at [pos]. *)
Definition letter_at (recipient : string) (pos : nat) : letter :=
  {| lt_recipient := recipient;
     lt_entries := entries_at recipient (od_get recipient conflicts) pos |}.

Fixpoint letters_from (recipients : list string) (pos : nat) : list letter :=
  match recipients with
  | [] => []
  | r :: rs =>
      letter_at r pos :: letters_from rs (pos + 16 * length (od_get r conflicts))
  end.

Fixpoint lines_text (ind : nat) (es : list entry) : string :=
  match es with
  | [] => EmptyString
  | e :: es' =>
      conflict_line ind (en_uid e) (en_ctype e) (en_authors e) +:+ lines_text (S ind) es'
  end.

Definition letter_text (lt : letter) : string :=
  greeting w senderName names (lt_recipient lt) +:+ (preamble +:+ url) +:+ "."
  +:+ nl +:+ nl
  +:+ lines_text 1 (lt_entries lt) +:+ closing senderFirstName.

Definition audit_rows (lt : letter) : list string :=
  (λ e, uidmap_row (lt_recipient lt) (en_paper e) (en_uid e)) <$> lt_entries lt.

Definition delivery (lt : letter) : list event :=
  if reallySendMail then
    [EPrint ("Sending mail to " +:+ lt_recipient lt +:+ "...");
     ESmtp (Sendmail sender (lt_recipient lt) (letter_text lt))]
  else
    [EPrint ("not sending mail to " +:+ lt_recipient lt);
     EPrint "(use --really-send to actually send mail)";
     EPrint (Py.str_bytes (letter_text lt))].

(** What one turn of the recipient loop does: the audit rows of a
    message, then the message. *)
Definition block (lt : letter) : list event :=
  (if reallySendMail then [ESleep 1] else [])
  ++ (EWrite uidmap_csv <$> audit_rows lt) ++ delivery lt.

Definition session_open : list event :=
  if reallySendMail then
    [ESmtp (Connect "smtp.gmail.com" 587); ESmtp Ehlo; ESmtp Starttls;
     ESmtp (Login sender password)]
  else [].

Definition session_close : list event :=
  if reallySendMail then [ESmtp Quit] else [].

(** The events of a run that goes through. *)
Definition script (letters : list letter) : list event :=
  [EOpenW uidmap_csv; EWrite uidmap_csv header_row] ++ session_open
  ++ concat (block <$> letters) ++ session_close ++ [EClose uidmap_csv].

End Script.

(** The messages and the events of a run, from the command line and the
    tables that the filter built. *)
Definition run_letters (w : world) (args : args_t) (conflicts : conflicts_t)
    (conflict_types : gmap string (gmap string string)) : list letter :=
  letters_from w (default EmptyString (hashcode args)) conflicts conflict_types
    (merge_sort String.le (od_keys conflicts)) 0.

Definition run_text (w : world) (args : args_t) (pcinfo : list pcinfo_row) (lt : letter)
    : string :=
  letter_text w
    (default EmptyString (your_name args) +:+ " <" +:+ default EmptyString (your_email args) +:+ ">")
    (default EmptyString (your_name args)) (default EmptyString (form_url args))
    (load_names w pcinfo) lt.

Definition run_script (w : world) (args : args_t) (pcinfo : list pcinfo_row)
    (letters : list letter)
    : list event :=
  script w
    (default EmptyString (your_name args) +:+ " <" +:+ default EmptyString (your_email args) +:+ ">")
    (default EmptyString (your_name args)) (default EmptyString (your_email args)) (your_password args)
    (default EmptyString (form_url args)) (Py.truthy (really_send args))
    (load_names w pcinfo) letters.

(** The pairs (reviewer, paper) that the messages render, in order. *)
Definition rendered_pairs (letters : list letter) : list (string * string) :=
  lt ← letters; (λ e, (lt_recipient lt, en_paper e)) <$> lt_entries lt.

(** [follows m s full Q]: run from [s], the computation [m] emits a prefix
    of [full]; when it returns, it has emitted all of [full] and [Q] holds
    of its result and final state. *)
Definition follows {A} (m : M A) (s : state) (full : list event)
    (Q : A → state → Prop) : Prop :=
  (m s).2 `prefix_of` full ∧
  ∀ a, (m s).1.1 = Ok a → (m s).2 = full ∧ Q a (m s).1.2.

(** What an event prints, and what it writes to the file [path]. *)
Definition printed (ev : event) : option string :=
  match ev with
  | EPrint line => Some line
  | _ => None
  end.

Definition written (path : string) (ev : event) : option string :=
  match ev with
  | EWrite p data => if decide (p = path) then Some data else None
  | _ => None
  end.

Definition concat_s (l : list string) : string := foldr String.app EmptyString l.

(** The rows that the obfuscation step writes for the pairs (reviewer,
    paper) taken in this order, when the salt of the first token is read at
    position [pos] of the [os.urandom] stream and each further token reads
    the sixteen bytes that follow: the rows of the tokens generated, in the
    order generated. *)
Fixpoint generated_rows (w : world) (hashcode : string) (pos : nat)
    (pairs : list (string * string)) : list string :=
  match pairs with
  | [] => []
  | (recipient, paper_id) :: pairs' =>
      uidmap_row recipient paper_id (token w hashcode recipient paper_id pos)
      :: generated_rows w hashcode (pos + 16) pairs'
  end.

(** [rows_match_salts m s]: run from [s], the computation [m] has read one
    salt (sixteen bytes of [os.urandom]) for each line that it has written
    to the audit file, whether it returns or raises. *)
Definition rows_match_salts {A} (m : M A) (s : state) : Prop :=
  urandom_pos (m s).1.2
  = urandom_pos s + 16 * length (omap (written uidmap_csv) (m s).2).

(** What the dry run prints for one message. *)
Definition dry_lines (w : world) (args : args_t) (pcinfo : list pcinfo_row) (lt : letter)
    : list string :=
  ["not sending mail to " +:+ lt_recipient lt;
   "(use --really-send to actually send mail)";
   Py.str_bytes (run_text w args pcinfo lt)].

(** The events that hand one message over, and its turn of the loop. *)
Definition run_delivery (w : world) (args : args_t) (pcinfo : list pcinfo_row) (lt : letter)
    : list event :=
  delivery w
    (default EmptyString (your_name args) +:+ " <" +:+ default EmptyString (your_email args) +:+ ">")
    (default EmptyString (your_name args)) (default EmptyString (your_email args))
    (default EmptyString (form_url args)) (Py.truthy (really_send args))
    (load_names w pcinfo) lt.

(** The command line is complete and every reviewer address of the
    conflicts export has an [@]. *)
Definition well_formed (args : args_t) (pcconflicts : list conflict_row) : Prop :=
  Py.truthy (conference args) = true ∧ Py.truthy (hashcode args) = true ∧
  Py.truthy (your_name args) = true ∧ is_Some (your_email args) ∧
  is_Some (form_url args) ∧
  Forall (λ row, ∃ d, Py.index (Py.split "@" (cf_email row)) 1 = Ok d) pcconflicts.

(** [returns m s]: run from [s], the computation [m] raises nothing. *)
Definition returns {A} (m : M A) (s : state) : Prop := ∃ a, (m s).1.1 = Ok a.

(** ** Sample data *)

Definition row_univ : conflict_row :=
  {| cf_email := "a@univ.edu"; cf_paper := "12"; cf_conflicttype := "Personal" |}.

Definition authors_univ : list author_row :=
  [ {| au_paper := "12"; au_first := "B"; au_last := "C"; au_email := "b@univ.edu" |} ].

(** The second author of paper 12 has no address on file. *)
Definition authors_univ_blank : list author_row :=
  [ {| au_paper := "12"; au_first := "B"; au_last := "C"; au_email := "b@univ.edu" |};
    {| au_paper := "12"; au_first := "D"; au_last := "E"; au_email := EmptyString |} ].

Definition row_inst : conflict_row :=
  {| cf_email := "r@inst.org"; cf_paper := "7"; cf_conflicttype := "Other" |}.

(** The first author of paper 7 has an address without [@]. *)
Definition authors_inst : list author_row :=
  [ {| au_paper := "7"; au_first := "N"; au_last := "O"; au_email := "nobody" |};
    {| au_paper := "7"; au_first := "P"; au_last := "Q"; au_email := "p@inst.org" |} ].

Definition world_counting : world :=
  {| W_random := λ k, k;
     W_set_order := λ _ k, k;
     W_urandom := λ k, ascii_of_nat k;
     W_bcrypt_raw := λ _ _, [];
     W_smtp_ok := λ _, true;
     W_str_lower := λ s, s |}.

Definition args_dry : args_t :=
  {| conference := Some "asplos21";
     hashcode := Some "hellokitty";
     your_name := Some "Emery";
     your_email := Some "emery@example.org";
     your_password := None;
     form_url := Some "https://forms.example/f";
     really_send := None |}.

Definition authors_elsewhere : list author_row :=
  [ {| au_paper := "12"; au_first := "B"; au_last := "C"; au_email := "b@else.org" |};
    {| au_paper := "30"; au_first := "F"; au_last := "G"; au_email := "f@else.org" |} ].

(** The same conflict, exported twice. *)
Definition conflicts_twice : list conflict_row := [row_univ; row_univ].

(** Two reviewers, listed in descending order, and a co-authorship. *)
Definition conflicts_two : list conflict_row :=
  [ {| cf_email := "zoe@univ.edu"; cf_paper := "30"; cf_conflicttype := "Other" |};
    {| cf_email := "a@univ.edu"; cf_paper := "12"; cf_conflicttype := "Personal" |};
    {| cf_email := "a@univ.edu"; cf_paper := "30"; cf_conflicttype := "Collaborator" |} ].

(** ** Further vocabulary *)

(** An author as [allAuthors] stores him. *)
Definition author_text (row : author_row) : string :=
  au_first row +:+ " " +:+ au_last row +:+ " <" +:+ au_email row +:+ ">".

(** The strings of [l] with [sep] between them. *)
Fixpoint sep_join (sep : string) (l : list string) : string :=
  match l with
  | [] => EmptyString
  | x :: l' =>
      match l' with
      | [] => x
      | _ :: _ => x +:+ sep +:+ sep_join sep l'
      end
  end.

Definition printable (c : ascii) : bool :=
  let n := nat_of_ascii c in (32 <=? n)%nat && (n <? 127)%nat.

Definition in_alphabet (c : ascii) : bool := bool_decide (c ∈ Bcrypt.alphabet).

(** The part of the command line that the script needs before it reads
    the exports. *)
Definition complete (args : args_t) : Prop :=
  Py.truthy (conference args) = true ∧ Py.truthy (hashcode args) = true ∧
  Py.truthy (your_name args) = true ∧ is_Some (your_email args).

Definition row_no_at : conflict_row :=
  {| cf_email := "nobody"; cf_paper := "12"; cf_conflicttype := "Collaborator" |}.

Definition author_bc : author_row :=
  {| au_paper := "12"; au_first := "B"; au_last := "C"; au_email := "b@else.org" |}.

Definition args_live : args_t :=
  {| conference := Some "asplos21";
     hashcode := Some "hellokitty";
     your_name := Some "Emery";
     your_email := Some "emery@example.org";
     your_password := Some "goodbyedoggy";
     form_url := Some "https://forms.example/f";
     really_send := Some "yes" |}.

Definition args_no_url : args_t :=
  {| conference := Some "asplos21";
     hashcode := Some "hellokitty";
     your_name := Some "Emery";
     your_email := Some "emery@example.org";
     your_password := None;
     form_url := None;
     really_send := None |}.

(** A world without a network: every SMTP call raises. *)
Definition world_offline : world :=
  {| W_random := λ k, k;
     W_set_order := λ _ k, k;
     W_urandom := λ k, ascii_of_nat k;
     W_bcrypt_raw := λ _ _, [];
     W_smtp_ok := λ _, false;
     W_str_lower := λ s, s |}.

(** The server accepts the session and the first message, no more. *)
Definition world_refusing : world :=
  {| W_random := λ k, k;
     W_set_order := λ _ k, k;
     W_urandom := λ k, ascii_of_nat k;
     W_bcrypt_raw := λ _ _, [];
     W_smtp_ok := λ k, bool_decide (k < 5);
     W_str_lower := λ s, s |}.

(** The same pair with two kept types, and a third row in between. *)
Definition conflicts_retyped : list conflict_row :=
  [ {| cf_email := "a@univ.edu"; cf_paper := "12"; cf_conflicttype := "Personal" |};
    {| cf_email := "zoe@univ.edu"; cf_paper := "30"; cf_conflicttype := "Other" |};
    {| cf_email := "a@univ.edu"; cf_paper := "12"; cf_conflicttype := "Pinned conflict" |} ].

(** What a live run does for one message. *)
Definition live_block (w : world) (args : args_t) (pcinfo : list pcinfo_row) (lt : letter)
    : list event :=
  ESleep 1
  :: (EWrite uidmap_csv <$> audit_rows lt)
  ++ [EPrint ("Sending mail to " +:+ lt_recipient lt +:+ "...");
      ESmtp (Sendmail (default EmptyString (your_email args)) (lt_recipient lt)
               (run_text w args pcinfo lt))].

(** * Properties *)

(** ** Shuffling rearranges, nothing more *)

Lemma swap_perm {A} (i j : nat) (x : list A) : swap i j x ≡ₚ x.
Proof.
  unfold swap. destruct (x !! i) as [a|] eqn:Hi; [|done].
  destruct (x !! j) as [b|] eqn:Hj; [|done].
  by apply Permutation_insert_swap.
Qed.

Lemma shuffle_from_perm {A} draw (i : nat) (x : list A) pos :
  (shuffle_from draw i x pos).1 ≡ₚ x.
Proof.
  revert x pos. induction i as [|i IH]; intros x pos; simpl; [done|].
  rewrite IH. apply swap_perm.
Qed.

Lemma shuffle_perm {A} draw (x : list A) pos : (shuffle draw x pos).1 ≡ₚ x.
Proof. apply shuffle_from_perm. Qed.

Lemma list_of_set_perm w l : list_of_set w l ≡ₚ remove_dups l.
Proof. apply shuffle_perm. Qed.

Lemma elem_of_list_of_set w l x : x ∈ list_of_set w l ↔ x ∈ l.
Proof. by rewrite list_of_set_perm, elem_of_remove_dups. Qed.

Lemma NoDup_list_of_set w l : NoDup (list_of_set w l).
Proof. rewrite list_of_set_perm. apply NoDup_remove_dups. Qed.

(** ** The filter *)

Lemma rmap_Ok {A B} (f : A → result B) l ys :
  rmap f l = Ok ys ↔ Forall2 (λ x y, f x = Ok y) l ys.
Proof.
  revert ys. induction l as [|x l IH]; intros ys; simpl.
  - split; [intros ?; simplify_eq; constructor | by intros ->%Forall2_nil_inv_l].
  - destruct (f x) as [y|e] eqn:Hx; simpl.
    + destruct (rmap f l) as [ys'|e] eqn:Hl; simpl.
      * split.
        -- intros ?; simplify_eq. constructor; [done|]. by apply IH.
        -- inversion 1 as [|? y' ? ys'' Hy Hys]; simplify_eq.
           apply IH in Hys. congruence.
      * split; [done|]. inversion 1 as [|? y' ? ys'' Hy Hys]; simplify_eq.
        apply IH in Hys. congruence.
    + split; [done|]. inversion 1; congruence.
Qed.

Lemma rmap_total {A B} (f : A → result B) l :
  (∀ x, x ∈ l → ∃ y, f x = Ok y) → ∃ ys, rmap f l = Ok ys.
Proof.
  induction l as [|x l IH]; intros Hall; simpl; [by eexists|].
  destruct (Hall x) as [y ->]; [left|]. simpl.
  destruct IH as [ys ->]; [intros; apply Hall; by right|]. by eexists.
Qed.

(** The domain test fires exactly when every author string yields a domain
    and one of them is the recipient's. *)
Lemma domain_match_true d alist :
  domain_match d alist = true ↔
  (∀ a, a ∈ alist → ∃ x, author_domain a = Ok x) ∧
  (∃ a, a ∈ alist ∧ author_domain a = Ok d).
Proof.
  unfold domain_match. destruct (rmap author_domain alist) as [ds|e] eqn:Hm.
  - apply rmap_Ok in Hm. unfold Py.mem. rewrite bool_decide_eq_true. split.
    + intros Hd. split.
      * intros a Ha. apply list_elem_of_lookup in Ha as [i Hi].
        destruct (Forall2_lookup_l _ _ _ _ _ Hm Hi) as (y & _ & Hy). by eexists.
      * apply list_elem_of_lookup in Hd as [i Hi].
        destruct (Forall2_lookup_r _ _ _ _ _ Hm Hi) as (a & Ha & Hy).
        exists a. split; [|done]. apply list_elem_of_lookup. eauto.
    + intros [_ (a & Ha & Hd)]. apply list_elem_of_lookup in Ha as [i Hi].
      destruct (Forall2_lookup_l _ _ _ _ _ Hm Hi) as (y & Hy & Hay).
      rewrite Hd in Hay. simplify_eq. apply list_elem_of_lookup. eauto.
  - split; [done|]. intros [Hall _].
    apply rmap_total in Hall as [ys Hys]. congruence.
Qed.

Lemma domain_match_perm d l1 l2 :
  (∀ a, a ∈ l1 ↔ a ∈ l2) → domain_match d l1 = domain_match d l2.
Proof.
  intros Heq. apply eq_true_iff_eq. rewrite !domain_match_true.
  split; intros [H1 (a & Ha & Hd)];
    (split; [intros b Hb; apply H1; by apply Heq | exists a; split; [by apply Heq|done]]).
Qed.

Lemma domain_match_list_of_set w d l :
  domain_match d (list_of_set w l) = domain_match d l.
Proof. apply domain_match_perm. intros a. apply elem_of_list_of_set. Qed.

(** What [vet] answers once the recipient's address has an [@]. *)
Lemma vet_Ok w allAuthors row d :
  Py.index (Py.split "@" (cf_email row)) 1 = Ok d →
  vet w allAuthors row =
    Ok (if Py.mem (cf_conflicttype row) kept_types
           && (Py.mem d webmail || negb (domain_match d (allAuthors !!! cf_paper row)))
        then Some (cf_paper row, list_of_set w (allAuthors !!! cf_paper row))
        else None).
Proof.
  intros Hd. unfold vet. rewrite Hd. simpl.
  rewrite domain_match_list_of_set.
  destruct (Py.mem (cf_conflicttype row) kept_types); simpl; [|done].
  destruct (Py.mem d webmail); simpl; [done|].
  by destruct (domain_match d (allAuthors !!! cf_paper row)).
Qed.

Lemma vet_Raise w allAuthors row e :
  Py.index (Py.split "@" (cf_email row)) 1 = Raise e →
  vet w allAuthors row = Raise e.
Proof. intros Hd. unfold vet. by rewrite Hd. Qed.

Lemma vet_Some w allAuthors row v :
  vet w allAuthors row = Ok (Some v) →
  cf_conflicttype row ∈ kept_types ∧
  v = (cf_paper row, list_of_set w (allAuthors !!! cf_paper row)).
Proof.
  destruct (Py.index (Py.split "@" (cf_email row)) 1) as [d|e] eqn:Hd.
  - rewrite (vet_Ok _ _ _ _ Hd).
    destruct (Py.mem (cf_conflicttype row) kept_types) eqn:Ht; simpl; [|done].
    apply bool_decide_eq_true in Ht.
    destruct (_ || _); [|done]. intros ?; by simplify_eq.
  - by rewrite (vet_Raise _ _ _ _ Hd).
Qed.

(** ** C2: the suppression rule *)

(** C2, as stated, fails: reviewer [a@univ.edu] has a personal conflict with
    paper 12; one author of the paper is at [univ.edu], which is no webmail
    domain, and yet the conflict is kept, because another author of the paper
    has no address. *)
Lemma suppression_rule_counterexample :
  cf_conflicttype row_univ ∈ kept_types ∧
  Py.index (Py.split "@" (cf_email row_univ)) 1 = Ok "univ.edu" ∧
  ("univ.edu" ∉ webmail) ∧
  (∃ a, a ∈ load_allAuthors authors_univ_blank !!! cf_paper row_univ ∧
        author_domain a = Ok "univ.edu") ∧
  ∀ w, vet w (load_allAuthors authors_univ_blank) row_univ ≠ Ok None.
Proof.
  split_and!.
  - apply (bool_decide_unpack _). by vm_compute.
  - reflexivity.
  - intros H. by apply (bool_decide_pack _) in H.
  - exists "B C <b@univ.edu>". split; [|reflexivity].
    apply (bool_decide_unpack _). by vm_compute.
  - intros w. erewrite vet_Ok by reflexivity.
    replace (Py.mem _ _ && _) with true by (by vm_compute). done.
Qed.

(** C2 (amended): for a conflict of a kept type whose recipient address has
    domain [d]: it is kept when [d] is a webmail domain; otherwise it is
    suppressed when every author string of the paper yields a domain and one
    of these is [d]; otherwise (no author at [d], or some author string
    yields no domain) it is kept. *)
Theorem suppression_rule w allAuthors row d :
  Py.index (Py.split "@" (cf_email row)) 1 = Ok d →
  cf_conflicttype row ∈ kept_types →
  let authors := allAuthors !!! cf_paper row in
  let kept := vet w allAuthors row = Ok (Some (cf_paper row, list_of_set w authors)) in
  let suppressed := vet w allAuthors row = Ok None in
  (d ∈ webmail → kept) ∧
  (d ∉ webmail →
     (∀ a, a ∈ authors → ∃ x, author_domain a = Ok x) →
     (∃ a, a ∈ authors ∧ author_domain a = Ok d) → suppressed) ∧
  (d ∉ webmail → (∃ a e, a ∈ authors ∧ author_domain a = Raise e) → kept) ∧
  (d ∉ webmail → (¬ ∃ a, a ∈ authors ∧ author_domain a = Ok d) → kept).
Proof.
  intros Hd Ht authors kept suppressed. unfold kept, suppressed.
  rewrite (vet_Ok _ _ _ _ Hd). unfold Py.mem.
  rewrite (bool_decide_eq_true_2 _ Ht). simpl. fold authors.
  split_and!.
  - intros Hw. by rewrite (bool_decide_eq_true_2 _ Hw).
  - intros Hw Hall Hex. rewrite (bool_decide_eq_false_2 _ Hw). simpl.
    assert (domain_match d authors = true) as -> by (by apply domain_match_true).
    done.
  - intros Hw (a & e & Ha & He). rewrite (bool_decide_eq_false_2 _ Hw).
    simpl. destruct (domain_match d authors) eqn:Hm; [|done].
    apply domain_match_true in Hm as [Hall _].
    destruct (Hall a Ha) as [x Hx]. congruence.
  - intros Hw Hno. rewrite (bool_decide_eq_false_2 _ Hw).
    simpl. destruct (domain_match d authors) eqn:Hm; [|done].
    apply domain_match_true in Hm as [_ Hex]. done.
Qed.

Lemma suppression_rule_witness :
  vet world_counting (load_allAuthors authors_univ) row_univ = Ok None.
Proof.
  pose (w := world_counting).
  assert (Hd : Py.index (Py.split "@" (cf_email row_univ)) 1 = Ok "univ.edu")
    by reflexivity.
  assert (Ht : cf_conflicttype row_univ ∈ kept_types).
  { apply (bool_decide_unpack _). by vm_compute. }
  destruct (suppression_rule w (load_allAuthors authors_univ) row_univ "univ.edu" Hd Ht)
    as (_ & Hsup & _).
  assert (Ha : load_allAuthors authors_univ !!! cf_paper row_univ = ["B C <b@univ.edu>"])
    by (by vm_compute).
  apply Hsup.
  - intros H. by apply (bool_decide_pack _) in H.
  - intros a. rewrite Ha. intros ->%list_elem_of_singleton. by eexists.
  - exists "B C <b@univ.edu>". rewrite Ha. split; [by apply list_elem_of_singleton|done].
Defined.

(** ** C4: a malformed author string *)

(** C4, as stated, fails: paper 7 has an author whose address lacks the [@]
    and an author at [inst.org]; reviewer [r@inst.org] is not at a webmail
    domain, and the conflict is kept, not suppressed. *)
Lemma malformed_author_counterexample :
  "N O <nobody>" ∈ load_allAuthors authors_inst !!! cf_paper row_inst ∧
  author_domain "N O <nobody>" = Raise IndexError ∧
  "P Q <p@inst.org>" ∈ load_allAuthors authors_inst !!! cf_paper row_inst ∧
  author_domain "P Q <p@inst.org>" = Ok "inst.org" ∧
  Py.index (Py.split "@" (cf_email row_inst)) 1 = Ok "inst.org" ∧
  ("inst.org" ∉ webmail) ∧
  cf_conflicttype row_inst ∈ kept_types ∧
  ∀ w, vet w (load_allAuthors authors_inst) row_inst ≠ Ok None.
Proof.
  split_and!; try reflexivity.
  - apply (bool_decide_unpack _). by vm_compute.
  - apply (bool_decide_unpack _). by vm_compute.
  - intros H. by apply (bool_decide_pack _) in H.
  - apply (bool_decide_unpack _). by vm_compute.
  - intros w. erewrite vet_Ok by reflexivity.
    replace (Py.mem _ _ && _) with true by (by vm_compute). done.
Qed.

(** C4 (amended): an error while extracting the domain of any one author
    string ends domain matching for the whole paper: a conflict of a kept
    type is then kept, whatever the domains of the other authors. *)
Theorem malformed_author_fails_open w allAuthors row d a e :
  Py.index (Py.split "@" (cf_email row)) 1 = Ok d →
  cf_conflicttype row ∈ kept_types →
  a ∈ allAuthors !!! cf_paper row →
  author_domain a = Raise e →
  domain_match d (list_of_set w (allAuthors !!! cf_paper row)) = false ∧
  vet w allAuthors row =
    Ok (Some (cf_paper row, list_of_set w (allAuthors !!! cf_paper row))).
Proof.
  intros Hd Ht Ha He.
  assert (Hm : domain_match d (allAuthors !!! cf_paper row) = false).
  { destruct (domain_match d _) eqn:Hm; [|done].
    apply domain_match_true in Hm as [Hall _].
    destruct (Hall a Ha) as [x Hx]. congruence. }
  split; [by rewrite domain_match_list_of_set|].
  rewrite (vet_Ok _ _ _ _ Hd), Hm. unfold Py.mem at 1.
  rewrite (bool_decide_eq_true_2 _ Ht). by rewrite orb_true_r.
Qed.

Lemma malformed_author_fails_open_witness :
  vet world_counting (load_allAuthors authors_inst) row_inst =
    Ok (Some ("7", list_of_set world_counting (load_allAuthors authors_inst !!! "7"))).
Proof.
  pose (w := world_counting).
  refine (proj2 (malformed_author_fails_open w (load_allAuthors authors_inst) row_inst
            "inst.org" "N O <nobody>" IndexError _ _ _ _)).
  - reflexivity.
  - apply (bool_decide_unpack _). by vm_compute.
  - apply (bool_decide_unpack _). by vm_compute.
  - reflexivity.
Defined.

(** ** Strings *)

Lemma app_cons_s c (s t : string) : String c s +:+ t = String c (s +:+ t).
Proof. reflexivity. Qed.

Lemma app_nil_l_s (t : string) : EmptyString +:+ t = t.
Proof. reflexivity. Qed.

Lemma app_assoc_s (s1 s2 s3 : string) : (s1 +:+ s2) +:+ s3 = s1 +:+ (s2 +:+ s3).
Proof.
  induction s1 as [|c s1 IH]; [done|]. rewrite !app_cons_s. by rewrite IH.
Qed.

Lemma app_nil_r_s (s : string) : s +:+ EmptyString = s.
Proof. induction s as [|c s IH]; [done|]. rewrite app_cons_s. by rewrite IH. Qed.

Lemma drop_app_s (s1 s2 : string) : Py.drop (String.length s1) (s1 +:+ s2) = s2.
Proof.
  induction s1 as [|c s1 IH]; [by destruct s2|]. rewrite app_cons_s. apply IH.
Qed.

Lemma take_app_le_s (n : nat) (s1 s2 : string) :
  n ≤ String.length s1 → Py.take n (s1 +:+ s2) = Py.take n s1.
Proof.
  revert s1. induction n as [|n IH]; intros [|c s1] Hn;
    rewrite ?app_cons_s; simpl in *; try done; try lia.
  f_equal. apply IH. lia.
Qed.

Lemma all_chars_app P (s1 s2 : string) :
  all_chars P (s1 +:+ s2) = all_chars P s1 && all_chars P s2.
Proof.
  induction s1 as [|c s1 IH]; [done|]. rewrite app_cons_s. simpl.
  by rewrite IH, andb_assoc.
Qed.

Lemma contains_verbatim (s : string) :
  all_chars shown_verbatim s = true → Py.contains Py.squote s = false.
Proof.
  induction s as [|c s IH]; [done|]. cbn.
  intros [[_ Hc]%andb_true_iff Hs]%andb_true_iff.
  apply negb_true_iff in Hc. rewrite Hc. by apply IH.
Qed.

Lemma repr_body_verbatim (s : string) :
  all_chars shown_verbatim s = true → Py.repr_body Py.squote s = s.
Proof.
  induction s as [|c s IH]; [done|]. cbn.
  intros [[Hc _]%andb_true_iff Hs]%andb_true_iff.
  apply bool_decide_eq_true in Hc. rewrite Hc, IH by done. done.
Qed.

(** [str(b)] of bytes that need no escaping is [b'] + the bytes + ['] . *)
Lemma str_bytes_verbatim (s : string) :
  all_chars shown_verbatim s = true →
  Py.str_bytes s = String "b" (String Py.squote (s +:+ String Py.squote EmptyString)).
Proof.
  intros Hs. unfold Py.str_bytes.
  rewrite (contains_verbatim _ Hs). cbn. by rewrite (repr_body_verbatim _ Hs).
Qed.

(** ** bcrypt's output *)

Lemma code_in_alphabet n : Bcrypt.code n ∈ Bcrypt.alphabet.
Proof.
  unfold Bcrypt.code.
  destruct (nth_in_or_default (N.to_nat n) Bcrypt.alphabet "."%char) as [Hin| ->].
  - by apply list_elem_of_In.
  - apply (bool_decide_unpack _). by vm_compute.
Qed.

Lemma alphabet_verbatim c : c ∈ Bcrypt.alphabet → shown_verbatim c = true.
Proof.
  revert c. apply Forall_forall. apply (bool_decide_unpack _). by vm_compute.
Qed.

Lemma code_verbatim n : shown_verbatim (Bcrypt.code n) = true.
Proof. apply alphabet_verbatim, code_in_alphabet. Qed.

Lemma encode_base64_verbatim p :
  all_chars shown_verbatim (Bcrypt.encode_base64 p) = true.
Proof.
  assert (∀ n p, length p ≤ n →
            all_chars shown_verbatim (Bcrypt.encode_base64 p) = true) as Hn.
  { clear p. induction n as [|n IH]; intros p Hp.
    - destruct p; [done|simpl in Hp; lia].
    - destruct p as [|c1 [|c2 [|c3 p]]]; simpl in *;
        rewrite ?code_verbatim; simpl; try done.
      apply IH. lia. }
  by apply (Hn (length p)).
Qed.

Lemma salt_text_length w pos : String.length (salt_text w pos) = 22.
Proof. reflexivity. Qed.

Lemma gensalt_eq w pos : Bcrypt.gensalt w pos = ("$2b$12$" +:+ salt_text w pos, pos + 16).
Proof. reflexivity. Qed.

(** The token is the first twelve characters of the salt's random part. *)
Lemma token_eq w hashcode recipient paper_id pos :
  token w hashcode recipient paper_id pos = Py.take 12 (salt_text w pos).
Proof.
  unfold token, reduced_uid_of, Bcrypt.hashpw. rewrite gensalt_eq. simpl fst.
  rewrite str_bytes_verbatim.
  - unfold Py.slice. change (21 - 9) with 12.
    rewrite !app_assoc_s.
    change (Py.drop 9 (String "b" (String Py.squote ("$2b$12$" +:+ ?x))))
      with (Py.drop (String.length "$2b$12$") ("$2b$12$" +:+ x)).
    rewrite drop_app_s. apply take_app_le_s. rewrite salt_text_length. lia.
  - rewrite !all_chars_app. unfold salt_text.
    rewrite !encode_base64_verbatim. by vm_compute.
Qed.

Lemma obfuscate_run w hashcode recipient paper_id s :
  obfuscate w hashcode recipient paper_id s =
    (Ok (token w hashcode recipient paper_id (urandom_pos s)),
     {| urandom_pos := urandom_pos s + 16; smtp_calls := smtp_calls s |},
     [EWrite uidmap_csv
        (uidmap_row recipient paper_id
           (token w hashcode recipient paper_id (urandom_pos s)))]).
Proof. reflexivity. Qed.

(** ** C6: what the token is made of *)

(** C6: the token, characters 9 to 20 of [str(uid)], is a piece of the salt
    (characters 7 to 18 of it, the first twelve of its random part); so with
    the salt fixed, the obfuscation step returns the same token whatever the
    reviewer, the paper and the secret. *)
Theorem token_is_salt_slice w s :
  (∀ key, reduced_uid_of (Bcrypt.hashpw w key (Bcrypt.gensalt w (urandom_pos s)).1)
          = Py.slice 7 19 (Bcrypt.gensalt w (urandom_pos s)).1) ∧
  (∀ hashcode recipient paper_id,
     (obfuscate w hashcode recipient paper_id s).1.1
     = Ok (Py.take 12 (salt_text w (urandom_pos s)))) ∧
  (∀ h1 r1 p1 h2 r2 p2,
     (obfuscate w h1 r1 p1 s).1.1 = (obfuscate w h2 r2 p2 s).1.1).
Proof.
  split_and!.
  - intros key.
    transitivity (token w EmptyString key EmptyString (urandom_pos s)).
    + unfold token. by rewrite app_nil_l_s, app_nil_r_s.
    + rewrite token_eq. reflexivity.
  - intros. rewrite obfuscate_run. simpl. by rewrite token_eq.
  - intros. rewrite !obfuscate_run. simpl. by rewrite !token_eq.
Qed.

(** ** C7: the step run twice *)

(** C7, as stated, fails: two salts that differ (here in their last
    character) give the same token. *)
Lemma distinct_salts_counterexample :
  (Bcrypt.gensalt world_close_salts 0).1 ≠ (Bcrypt.gensalt world_close_salts 16).1 ∧
  (obfuscate_twice world_close_salts "secret" "a@univ.edu" "12" initial).1.1
    = Ok ("............", "............").
Proof. split; [by vm_compute|reflexivity]. Qed.

(** C7 (amended): the step run twice on the same input reads two salts and
    returns the first twelve characters of the random part of each; the two
    tokens differ exactly when the salts differ within these characters.
    Each token is written as a row of the audit file, in this order. *)
Theorem obfuscate_twice_run w hashcode recipient paper_id s content :
  let t1 := Py.take 12 (salt_text w (urandom_pos s)) in
  let t2 := Py.take 12 (salt_text w (urandom_pos s + 16)) in
  let rows := [EWrite uidmap_csv (uidmap_row recipient paper_id t1);
               EWrite uidmap_csv (uidmap_row recipient paper_id t2)] in
  obfuscate_twice w hashcode recipient paper_id s =
    (Ok (t1, t2),
     {| urandom_pos := urandom_pos s + 32; smtp_calls := smtp_calls s |},
     rows) ∧
  file_after uidmap_csv content rows =
    content +:+ uidmap_row recipient paper_id t1 +:+ uidmap_row recipient paper_id t2.
Proof.
  intros t1 t2 rows. split.
  - unfold obfuscate_twice, mbind, M_bind, bind. rewrite obfuscate_run.
    rewrite obfuscate_run. cbn [urandom_pos smtp_calls].
    rewrite !token_eq. fold t1 t2. unfold mret, M_ret, ret. simpl.
    do 3 f_equal. lia.
  - unfold rows. simpl. by rewrite app_assoc_s.
Qed.

(** ** C9: the name in the subject line *)

Lemma load_names_lookup w rows k :
  load_names w rows !! k =
    full_name
    <$> last (filter (λ row, Py.lower (W_str_lower w) (pc_email row) = k) rows).
Proof.
  unfold load_names. induction rows as [|row rows IH] using rev_ind; [done|].
  rewrite foldl_snoc, filter_app. unfold names_step at 1.
  rewrite lookup_insert. case_decide as Hk.
  - rewrite filter_cons_True, filter_nil by done. by rewrite last_snoc.
  - rewrite filter_cons_False, filter_nil, app_nil_r by done. done.
Qed.

(** C9, as stated, fails: the reviewer-info export spells the address
    [Alice@Univ.EDU], the conflicts export [alice@univ.edu]; the lookup
    succeeds all the same and the subject carries the name. *)
Lemma case_mismatch_counterexample :
  Forall (λ row, pc_email row ≠ "alice@univ.edu") pcinfo_alice ∧
  display_name world_counting (load_names world_counting pcinfo_alice) "alice@univ.edu"
  = "Alice Ames" ∧
  display_name world_counting (load_names world_counting pcinfo_alice) "alice@univ.edu"
  ≠ "alice@univ.edu".
Proof.
  split_and!.
  - repeat constructor. by vm_compute.
  - by vm_compute.
  - by vm_compute.
Qed.

(** C9 (amended): the join lower-cases the address on both sides, with
    [str.lower()], so it ignores case.  The subject carries the name of the
    last row of the reviewer-info export whose address equals the
    recipient's up to case (the two have the same [str.lower()]), and the
    recipient's raw address when there is no such row.  Between ASCII
    addresses, equal up to case means equal once [A-Z] is mapped to [a-z]. *)
Theorem display_name_spec w senderName pcinfo recipient :
  let lower := Py.lower (W_str_lower w) in
  let shown :=
    match last (filter (λ row, lower (pc_email row) = lower recipient) pcinfo) with
    | Some row => full_name row
    | None => recipient
    end in
  display_name w (load_names w pcinfo) recipient = shown ∧
  greeting w senderName (load_names w pcinfo) recipient =
    "From: " +:+ senderName +:+ nl +:+ "Subject: Conflicts to vet: " +:+ shown
    +:+ nl +:+ nl +:+ "Hi," +:+ nl +:+ nl ∧
  (∀ a b, Py.isascii a = true → Py.isascii b = true →
          (lower a = lower b ↔ Py.lower_ascii a = Py.lower_ascii b)).
Proof.
  intros lower shown.
  assert (display_name w (load_names w pcinfo) recipient = shown) as Hd.
  { unfold display_name, shown. rewrite load_names_lookup. by destruct (last _). }
  split; [done|]. split; [unfold greeting; by rewrite Hd|].
  intros a b Ha Hb. unfold lower, Py.lower. by rewrite Ha, Hb.
Qed.

(** ** The tables that the filter builds *)

Lemma od_get_append {V} (k k' : string) (v : V) d :
  od_get k' (od_append k v d) = od_get k' d ++ (if decide (k = k') then [v] else []).
Proof.
  induction d as [|[k0 vs] d IH]; simpl.
  - destruct (decide (k = k')); by rewrite ?app_nil_r.
  - destruct (decide (k0 = k)) as [->|Hne]; simpl.
    + destruct (decide (k = k')); [done|]. by rewrite app_nil_r.
    + destruct (decide (k0 = k')) as [->|Hne']; [|done].
      rewrite decide_False by done. by rewrite app_nil_r.
Qed.

Lemma od_keys_append {V} (k : string) (v : V) d :
  od_keys (od_append k v d) = if decide (k ∈ od_keys d) then od_keys d else od_keys d ++ [k].
Proof.
  unfold od_keys. induction d as [|[k0 vs] d IH]; [done|].
  cbn [od_append]. destruct (decide (k0 = k)) as [->|Hne]; rewrite !fmap_cons; cbn [fst].
  - rewrite decide_True; [done|]. left.
  - rewrite IH. destruct (decide (k ∈ d.*1)) as [Hin|Hnin].
    + rewrite decide_True; [done|]. by right.
    + rewrite decide_False; [done|]. intros [?|?]%elem_of_cons; congruence.
Qed.

Lemma od_keys_append_NoDup {V} (k : string) (v : V) d :
  NoDup (od_keys d) → NoDup (od_keys (od_append k v d)).
Proof.
  intros Hd. rewrite od_keys_append. case_decide; [done|].
  apply NoDup_app. split_and!; [done| |apply NoDup_singleton].
  intros x Hx ->%list_elem_of_singleton. done.
Qed.

Lemma elem_of_od_keys_append {V} (k k' : string) (v : V) d :
  k' ∈ od_keys (od_append k v d) ↔ k' ∈ od_keys d ∨ k' = k.
Proof.
  rewrite od_keys_append. case_decide.
  - split; [by left|]. by intros [?| ->].
  - rewrite elem_of_app, list_elem_of_singleton. done.
Qed.

Section Grouping.
Context (w : world) (allAuthors : gmap string (list string)).

Lemma conflicts_step_eq acc row acc' :
  conflicts_step w allAuthors acc row = Ok acc' →
  acc' = if is_kept w allAuthors row
         then (od_append (cf_email row) (record_in w allAuthors row) acc.1,
               <[cf_email row :=
                   <[cf_paper row := cf_conflicttype row]> (acc.2 !!! cf_email row)]> acc.2)
         else acc.
Proof.
  unfold conflicts_step, is_kept.
  destruct (vet w allAuthors row) as [[v|]|e] eqn:Hv; simpl; [| |done].
  - apply vet_Some in Hv as [_ ->]. by intros ?; simplify_eq.
  - by intros ?; simplify_eq.
Qed.

Lemma load_conflicts_get rows acc res e :
  rfoldl (conflicts_step w allAuthors) acc rows = Ok res →
  od_get e res.1 =
    od_get e acc.1
    ++ (record_in w allAuthors <$> filter (λ r, cf_email r = e) (filter (is_kept w allAuthors) rows)).
Proof.
  revert acc. induction rows as [|row rows IH]; intros acc; simpl.
  - intros ?; simplify_eq. by rewrite app_nil_r.
  - destruct (conflicts_step w allAuthors acc row) as [acc'|] eqn:Hstep; [|done].
    simpl. intros Hres. rewrite (IH _ Hres).
    apply conflicts_step_eq in Hstep as ->.
    rewrite (filter_cons (is_kept w allAuthors)).
    destruct (is_kept w allAuthors row) eqn:Hk.
    + rewrite decide_True by done. simpl. rewrite od_get_append.
      rewrite (filter_cons (λ r, cf_email r = e)).
      destruct (decide (cf_email row = e)); simpl.
      * by rewrite <-app_assoc.
      * by rewrite app_nil_r.
    + rewrite decide_False; [done|]. by intros [].
Qed.

Lemma load_conflicts_keys rows acc res e :
  rfoldl (conflicts_step w allAuthors) acc rows = Ok res →
  e ∈ od_keys res.1 ↔
    e ∈ od_keys acc.1 ∨ ∃ r, r ∈ filter (is_kept w allAuthors) rows ∧ cf_email r = e.
Proof.
  revert acc. induction rows as [|row rows IH]; intros acc; simpl.
  - intros ?; simplify_eq. rewrite filter_nil. split; [by left|].
    intros [?|(r & ?%elem_of_nil & _)]; done.
  - destruct (conflicts_step w allAuthors acc row) as [acc'|] eqn:Hstep; [|done].
    simpl. intros Hres. rewrite (IH _ Hres).
    apply conflicts_step_eq in Hstep as ->.
    rewrite (filter_cons (is_kept w allAuthors)).
    destruct (is_kept w allAuthors row) eqn:Hk.
    + rewrite decide_True by done. simpl. rewrite elem_of_od_keys_append.
      setoid_rewrite elem_of_cons. naive_solver.
    + rewrite decide_False; [done|]. by intros [].
Qed.

Lemma load_conflicts_NoDup rows acc res :
  rfoldl (conflicts_step w allAuthors) acc rows = Ok res →
  NoDup (od_keys acc.1) → NoDup (od_keys res.1).
Proof.
  revert acc. induction rows as [|row rows IH]; intros acc; simpl.
  - by intros ?; simplify_eq.
  - destruct (conflicts_step w allAuthors acc row) as [acc'|] eqn:Hstep; [|done].
    simpl. intros Hres Hnd. apply (IH _ Hres).
    apply conflicts_step_eq in Hstep as ->.
    destruct (is_kept w allAuthors row); [|done].
    simpl. by apply od_keys_append_NoDup.
Qed.

(** The type on file for a pair is that of its last surviving row. *)
Lemma load_conflicts_types rows acc res e p :
  rfoldl (conflicts_step w allAuthors) acc rows = Ok res →
  (res.2 !!! e) !! p =
    match last (filter (λ r, cf_email r = e ∧ cf_paper r = p)
                  (filter (is_kept w allAuthors) rows)) with
    | Some r => Some (cf_conflicttype r)
    | None => (acc.2 !!! e) !! p
    end.
Proof.
  revert acc. induction rows as [|row rows IH]; intros acc; simpl.
  - by intros ?; simplify_eq.
  - destruct (conflicts_step w allAuthors acc row) as [acc'|] eqn:Hstep; [|done].
    simpl. intros Hres. rewrite (IH _ Hres).
    apply conflicts_step_eq in Hstep as ->.
    rewrite (filter_cons (is_kept w allAuthors)).
    destruct (is_kept w allAuthors row) eqn:Hk.
    + rewrite decide_True by done.
      rewrite (filter_cons (λ r, cf_email r = e ∧ cf_paper r = p)).
      destruct (decide (cf_email row = e ∧ cf_paper row = p)) as [[He Hp]|Hne].
      * destruct (filter _ (filter _ rows)) as [|r0 l0] eqn:Hf.
        -- simpl. rewrite <-He, <-Hp. unfold lookup_total, map_lookup_total.
           rewrite lookup_insert_eq. simpl. by rewrite lookup_insert_eq.
        -- rewrite last_cons_cons.
           destruct (last (r0 :: l0)) eqn:Hl; [done|]. by apply last_None in Hl.
      * destruct (last _); [done|]. simpl.
        unfold lookup_total, map_lookup_total.
        destruct (decide (cf_email row = e)) as [He|He].
        -- rewrite He, lookup_insert_eq. simpl.
           rewrite lookup_insert_ne; [done|]. intros Hp. by apply Hne.
        -- by rewrite lookup_insert_ne.
    + rewrite decide_False; [done|]. by intros [].
Qed.

End Grouping.

Lemma shuffle_conflicts_keys w cs pos :
  od_keys (shuffle_conflicts w cs pos).1 = od_keys cs.
Proof.
  revert pos. induction cs as [|[k c] cs IH]; intros pos; simpl; [done|].
  destruct (shuffle (W_random w) c pos) as [c' pos'].
  specialize (IH pos'). destruct (shuffle_conflicts w cs pos') as [rest pos''].
  unfold od_keys in *. simpl in *. by f_equal.
Qed.

Lemma shuffle_conflicts_get w cs pos e :
  od_get e (shuffle_conflicts w cs pos).1 ≡ₚ od_get e cs.
Proof.
  revert pos. induction cs as [|[k c] cs IH]; intros pos; simpl; [done|].
  pose proof (shuffle_perm (W_random w) c pos) as Hc.
  destruct (shuffle (W_random w) c pos) as [c' pos'].
  specialize (IH pos'). destruct (shuffle_conflicts w cs pos') as [rest pos''].
  simpl in *. by destruct (decide (k = e)).
Qed.

(** ** Running the monad *)

Lemma bind_Ok {A B} (m : M A) (k : A → M B) s a s' evs :
  m s = (Ok a, s', evs) →
  (m ≫= k) s = ((k a s').1.1, (k a s').1.2, evs ++ (k a s').2).
Proof.
  intros Hm. unfold mbind, M_bind, bind. rewrite Hm.
  by destruct (k a s') as [[r s''] evs'].
Qed.

Lemma bind_Raise {A B} (m : M A) (k : A → M B) s e s' evs :
  m s = (Raise e, s', evs) → (m ≫= k) s = (Raise e, s', evs).
Proof. intros Hm. unfold mbind, M_bind, bind. by rewrite Hm. Qed.

Lemma bind_Ok_eq {A B} (m : M A) (k : A → M B) s a s' evs r s'' evs' :
  m s = (Ok a, s', evs) → k a s' = (r, s'', evs') →
  (m ≫= k) s = (r, s'', evs ++ evs').
Proof. intros Hm Hk. rewrite (bind_Ok _ _ _ _ _ _ Hm), Hk. done. Qed.

Lemma bind_lift_Ok {A B} (a : A) (k : A → M B) s : (lift (Ok a) ≫= k) s = k a s.
Proof.
  unfold mbind, M_bind, bind, lift. by destruct (k a s) as [[r s'] evs].
Qed.

Lemma follows_intro {A} (m : M A) s full (Q : A → state → Prop) r s' evs :
  m s = (r, s', evs) →
  evs `prefix_of` full →
  (∀ a, r = Ok a → evs = full ∧ Q a s') →
  follows m s full Q.
Proof. intros Hm Hp Hq. unfold follows. rewrite Hm. done. Qed.

Lemma follows_ret {A} (a : A) s : follows (mret a) s [] (λ a' s', a' = a ∧ s' = s).
Proof. eapply follows_intro; [reflexivity|done|]. by intros ? [= <-]. Qed.

Lemma follows_lift_Ok {A} (a : A) s :
  follows (lift (Ok a)) s [] (λ a' s', a' = a ∧ s' = s).
Proof. apply follows_ret. Qed.

Lemma follows_emit ev s : follows (emit ev) s [ev] (λ _ s', s' = s).
Proof. eapply follows_intro; [reflexivity|done|done]. Qed.

Lemma follows_smtp w op s :
  follows (smtp w op) s [ESmtp op] (λ _ s', urandom_pos s' = urandom_pos s).
Proof. eapply follows_intro; [reflexivity|done|done]. Qed.

Lemma follows_bind {A B} (m : M A) (k : A → M B) s full1 full2 Q1 Q2 :
  follows m s full1 Q1 →
  (∀ a s', Q1 a s' → follows (k a) s' full2 Q2) →
  follows (m ≫= k) s (full1 ++ full2) Q2.
Proof.
  intros [Hp Hq] Hk.
  destruct (m s) as [[[a|e] s'] evs] eqn:Hm; simpl in *.
  - destruct (Hq a eq_refl) as [-> HQ1].
    destruct (Hk a s' HQ1) as [Hp2 Hq2].
    unfold follows. rewrite (bind_Ok _ _ _ _ _ _ Hm). simpl.
    split; [by apply prefix_app|].
    intros b Hb. destruct (Hq2 b Hb) as [-> HQ2]. done.
  - unfold follows. rewrite (bind_Raise _ _ _ _ _ _ Hm). simpl.
    split; [by apply prefix_app_r|done].
Qed.

Lemma follows_weaken {A} (m : M A) s full (Q Q' : A → state → Prop) :
  follows m s full Q → (∀ a s', Q a s' → Q' a s') → follows m s full Q'.
Proof.
  intros [Hp Hq] HQ. split; [done|].
  intros a Ha. destruct (Hq a Ha). split; [done|]. by apply HQ.
Qed.

Lemma follows_when (b : bool) (m : M unit) s full (Q : unit → state → Prop) :
  (b = true → follows m s full Q) →
  (b = false → Q tt s) →
  follows (when b m) s (if b then full else []) Q.
Proof.
  destruct b; simpl; intros Hm Hq; [by apply Hm|].
  eapply follows_weaken; [apply follows_ret|]. intros [] s' [_ ->]. by apply Hq.
Qed.

(** ** The messages as data *)

Section Letters.
Context (w : world) (hashcode : string).
Context (conflicts : conflicts_t) (conflict_types : gmap string (gmap string string)).

Lemma entries_at_records r c pos :
  (λ e, (en_paper e, en_authors e)) <$> entries_at w hashcode conflict_types r c pos = c.
Proof.
  revert pos. induction c as [|[p l] c IH]; intros pos; simpl; [done|].
  by rewrite IH.
Qed.

Lemma entries_at_ctype r c pos e :
  e ∈ entries_at w hashcode conflict_types r c pos →
  en_ctype e = ctype_of conflict_types r (en_paper e).
Proof.
  revert pos. induction c as [|[p l] c IH]; intros pos; simpl.
  - by intros ?%elem_of_nil.
  - intros [->|He]%elem_of_cons; [done|]. by eapply IH.
Qed.

Lemma entries_at_uid r c pos i e :
  entries_at w hashcode conflict_types r c pos !! i = Some e →
  en_uid e = token w hashcode r (en_paper e) (pos + 16 * i).
Proof.
  revert pos i. induction c as [|[p l] c IH]; intros pos i; simpl; [done|].
  destruct i as [|i]; simpl.
  - intros ?; simplify_eq. simpl. by rewrite Nat.add_0_r.
  - intros He. rewrite (IH _ _ He). f_equal. lia.
Qed.

Lemma letters_from_recipients rs pos :
  lt_recipient <$> letters_from w hashcode conflicts conflict_types rs pos = rs.
Proof.
  revert pos. induction rs as [|r rs IH]; intros pos; simpl; [done|]. by rewrite IH.
Qed.

Lemma elem_of_letters_from lt rs pos :
  lt ∈ letters_from w hashcode conflicts conflict_types rs pos →
  lt_recipient lt ∈ rs ∧
  ∃ pos', lt = letter_at w hashcode conflicts conflict_types (lt_recipient lt) pos'.
Proof.
  revert pos. induction rs as [|r rs IH]; intros pos; simpl.
  - by intros ?%elem_of_nil.
  - intros [->|Hlt]%elem_of_cons.
    + split; [left|]. by exists pos.
    + destruct (IH _ Hlt) as [Hin Hex]. split; [by right|done].
Qed.

Lemma rendered_pairs_letters_from rs pos :
  rendered_pairs (letters_from w hashcode conflicts conflict_types rs pos)
  = rs ≫= λ r, (λ x, (r, x.1)) <$> od_get r conflicts.
Proof.
  unfold rendered_pairs. revert pos.
  induction rs as [|r rs IH]; intros pos; [done|].
  cbn [letters_from]. rewrite !bind_cons, IH. f_equal.
  unfold letter_at. cbn [lt_recipient lt_entries].
  rewrite <-(entries_at_records r (od_get r conflicts) pos) at 2.
  rewrite <-list_fmap_compose. done.
Qed.

End Letters.

Section Runs.
Context (w : world).
Context (hashcode senderName senderFirstName sender : string).
Context (password : option string) (form_url : option string) (reallySendMail : bool).
Context (names : gmap string string).
Context (conflicts : conflicts_t) (conflict_types : gmap string (gmap string string)).

Lemma paper_step_run recipient msg ind paper_id l s :
  paper_step w hashcode conflict_types recipient (msg, ind) (paper_id, l) s =
    (Ok (msg +:+ conflict_line ind (token w hashcode recipient paper_id (urandom_pos s))
                   (ctype_of conflict_types recipient paper_id) l,
         S ind),
     {| urandom_pos := urandom_pos s + 16; smtp_calls := smtp_calls s |},
     [EWrite uidmap_csv
        (uidmap_row recipient paper_id
           (token w hashcode recipient paper_id (urandom_pos s)))]).
Proof. reflexivity. Qed.

Lemma paper_loop_run recipient c msg ind s :
  mfoldl (paper_step w hashcode conflict_types recipient) (msg, ind) c s =
    (Ok (msg +:+ lines_text ind
                   (entries_at w hashcode conflict_types recipient c (urandom_pos s)),
         ind + length c),
     {| urandom_pos := urandom_pos s + 16 * length c; smtp_calls := smtp_calls s |},
     EWrite uidmap_csv <$>
       audit_rows {| lt_recipient := recipient;
                     lt_entries := entries_at w hashcode conflict_types recipient c
                                     (urandom_pos s) |}).
Proof.
  revert msg ind s. induction c as [|[paper_id l] c IH]; intros msg ind [pos n].
  - simpl. unfold mret, M_ret, ret. by rewrite app_nil_r_s, !Nat.add_0_r.
  - cbn [mfoldl].
    erewrite bind_Ok; [|apply paper_step_run].
    rewrite IH. cbn [fst snd urandom_pos smtp_calls].
    unfold audit_rows. cbn [entries_at lines_text lt_entries lt_recipient fmap list_fmap
      en_paper en_uid en_ctype en_authors app]. rewrite app_assoc_s.
    assert (ind + length ((paper_id, l) :: c) = S ind + length c) as ->
      by (simpl; lia).
    assert (pos + 16 * length ((paper_id, l) :: c) = pos + 16 + 16 * length c) as ->
      by (simpl; lia).
    done.
Qed.

Lemma compose_follows recipient s :
  follows
    (compose w hashcode senderName senderFirstName form_url names conflicts conflict_types
       recipient) s
    (EWrite uidmap_csv
       <$> audit_rows (letter_at w hashcode conflicts conflict_types recipient (urandom_pos s)))
    (λ msg s',
       msg = letter_text w senderName senderFirstName (default EmptyString form_url) names
               (letter_at w hashcode conflicts conflict_types recipient (urandom_pos s)) ∧
       urandom_pos s' = urandom_pos s + 16 * length (od_get recipient conflicts)).
Proof.
  unfold compose. destruct form_url as [u|] eqn:Hu; simpl.
  - erewrite <-(app_nil_l (_ <$> _)).
    eapply follows_bind; [apply (follows_lift_Ok (preamble +:+ u))|].
    intros body s' [-> ->]. simpl.
    eapply follows_intro.
    + erewrite bind_Ok; [|apply paper_loop_run]. reflexivity.
    + simpl. by rewrite app_nil_r.
    + simpl. intros a [= <-]. rewrite app_nil_r. split; [done|]. split; [|done].
      unfold letter_text, letter_at. simpl.
      by rewrite !app_assoc_s.
  - eapply follows_intro; [reflexivity|apply prefix_nil|done].
Qed.

Lemma deliver_follows lt s :
  follows
    (deliver w sender reallySendMail (lt_recipient lt)
       (letter_text w senderName senderFirstName (default EmptyString form_url) names lt)) s
    (delivery w senderName senderFirstName sender (default EmptyString form_url)
       reallySendMail names lt)
    (λ _ s', urandom_pos s' = urandom_pos s).
Proof.
  unfold deliver, delivery. destruct reallySendMail.
  - eapply (follows_bind _ _ _ [_] [_]); [apply follows_emit|].
    intros _ s' ->. apply follows_smtp.
  - eapply (follows_bind _ _ _ [_] [_; _]); [apply follows_emit|].
    intros _ s' ->.
    eapply (follows_bind _ _ _ [_] [_]); [apply follows_emit|].
    intros _ s' ->.
    eapply follows_weaken; [apply follows_emit|]. by intros _ s' ->.
Qed.

Lemma notify_follows recipient s :
  follows
    (notify w hashcode senderName senderFirstName sender form_url reallySendMail names
       conflicts conflict_types recipient) s
    (block w senderName senderFirstName sender (default EmptyString form_url)
       reallySendMail names
       (letter_at w hashcode conflicts conflict_types recipient (urandom_pos s)))
    (λ _ s', urandom_pos s' = urandom_pos s + 16 * length (od_get recipient conflicts)).
Proof.
  unfold notify, block.
  eapply follows_bind.
  { apply follows_when.
    - intros _. apply follows_emit.
    - intros _. exact (eq_refl s). }
  intros _ s' ->.
  eapply follows_bind; [apply compose_follows|].
  intros msg s' [-> Hpos].
  eapply follows_weaken.
  { apply (deliver_follows
             (letter_at w hashcode conflicts conflict_types recipient (urandom_pos s))). }
  intros _ s'' ->. done.
Qed.

Lemma notify_loop_follows recipients s :
  follows
    (mfor recipients
       (notify w hashcode senderName senderFirstName sender form_url reallySendMail names
          conflicts conflict_types)) s
    (concat (block w senderName senderFirstName sender (default EmptyString form_url)
               reallySendMail names
               <$> letters_from w hashcode conflicts conflict_types recipients
                     (urandom_pos s)))
    (λ _ s', urandom_pos s' =
             urandom_pos s
             + 16 * length (rendered_pairs
                              (letters_from w hashcode conflicts conflict_types recipients
                                 (urandom_pos s)))).
Proof.
  revert s. induction recipients as [|r rs IH]; intros s.
  - eapply follows_weaken; [apply follows_ret|]. intros _ s' [_ ->]. simpl. lia.
  - cbn [mfor letters_from fmap list_fmap concat].
    eapply follows_bind; [apply notify_follows|].
    intros [] s' Hs'. rewrite <-Hs'.
    eapply follows_weaken; [apply IH|]. intros [] s'' ->.
    unfold rendered_pairs. rewrite bind_cons, length_app, length_fmap.
    unfold letter_at at 1. cbn [lt_entries].
    rewrite <-(length_fmap (λ e, (en_paper e, en_authors e))), entries_at_records.
    rewrite Hs'. lia.
Qed.

End Runs.

(** ** The whole run *)

(** Either the script stops before it has produced anything but the usage
    text, or the tables are built and the run follows the script of its
    messages: all of it when the run returns, a prefix of it when an
    exception ends the run. *)
Lemma main_shape w args pcinfo authors pcconflicts :
  let run := main w args pcinfo authors pcconflicts initial in
  (run.1.1 ≠ Ok tt ∧ (run.2 = [] ∨ run.2 = [EPrintHelp])) ∨
  ∃ cs ct,
    load_conflicts w (load_allAuthors authors) pcconflicts = Ok (cs, ct) ∧
    let letters := run_letters w args (shuffle_conflicts w cs 0).1 ct in
    [EOpenW uidmap_csv; EWrite uidmap_csv header_row] `prefix_of` run.2 ∧
    run.2 `prefix_of` run_script w args pcinfo letters ∧
    (run.1.1 = Ok tt →
       run.2 = run_script w args pcinfo letters ∧
       urandom_pos run.1.2 = 16 * length (rendered_pairs letters)).
Proof.
  intros run. unfold run, main.
  destruct (negb _ || negb _ || negb _) eqn:Hargs.
  { left. split; [done|]. by right. }
  destruct (your_email args) as [email|] eqn:Hemail; simpl; [|left; split; [done|by left]].
  destruct (load_conflicts w (load_allAuthors authors) pcconflicts) as [[cs ct]|e] eqn:Hload;
    [|left; split; [done|by left]].
  right. exists cs, ct. split; [done|]. cbv zeta.
  set (letters := run_letters _ _ _ _).
  erewrite bind_Ok by reflexivity. erewrite bind_Ok by reflexivity.
  cbn [fst snd app].
  split.
  { erewrite bind_Ok by reflexivity. erewrite bind_Ok by reflexivity.
    eexists. cbn [fst snd app]. reflexivity. }
  match goal with
  | |- context [ (?m initial).2 ] =>
      assert (follows m initial (run_script w args pcinfo letters)
                (λ _ s', urandom_pos s' = 16 * length (rendered_pairs letters))) as [Hp Hq]
  end.
  { unfold run_script, script, letters, run_letters. rewrite Hemail. cbn [default].
    rewrite !app_assoc_s.
    eapply (follows_bind _ _ _ [_] _); [apply follows_emit|]. intros [] s1 ->.
    eapply (follows_bind _ _ _ [_] _); [apply follows_emit|]. intros [] s1 ->.
    eapply follows_bind.
    { apply follows_when with (Q := λ _ s', urandom_pos s' = 0).
      - intros _.
        eapply (follows_bind _ _ _ [_] [_; _; _]); [apply follows_smtp|]. intros [] t1 H1.
        eapply (follows_bind _ _ _ [_] [_; _]); [apply follows_smtp|]. intros [] t2 H2.
        eapply (follows_bind _ _ _ [_] [_]); [apply follows_smtp|]. intros [] t3 H3.
        eapply follows_weaken; [apply follows_smtp|]. intros [] t4 H4. simpl in *. congruence.
      - done. }
    intros [] s1 Hs1.
    eapply follows_bind.
    { match goal with
      | |- follows (mfor ?rs (notify _ ?h ?sn ?sf ?se ?fu ?b ?nm ?c ?t)) _ _ _ =>
          pose proof (notify_loop_follows w h sn sf se fu b nm c t rs s1) as Hloop
      end.
      rewrite Hs1 in Hloop. exact Hloop. }
    intros [] s2 Hs2.
    eapply follows_bind.
    { apply follows_when with (Q := λ _ s', urandom_pos s' = urandom_pos s2); [|done].
      intros _. apply follows_smtp. }
    intros [] s3 Hs3.
    eapply follows_weaken; [apply follows_emit|]. intros [] s4 ->.
    rewrite Hs3, Hs2. reflexivity. }
  split; [done|]. intros Hok. apply (Hq tt).
  by destruct (_.1.1) as [[]|].
Qed.


(** ** The messages against the conflicts export *)

(** Grouping a list by key, the keys taken once each, rearranges it. *)
Lemma group_by_key_perm {A} (key : A → string) (l : list A) (ks : list string) :
  NoDup ks → (∀ x, x ∈ l → key x ∈ ks) →
  ks ≫= (λ k, filter (λ x, key x = k) l) ≡ₚ l.
Proof.
  intros Hnd. induction l as [|x l IH]; intros Hin.
  - clear. induction ks as [|k ks IH]; [done|]. by rewrite bind_cons, IH.
  - assert (∀ ks', NoDup ks' →
      ks' ≫= (λ k, filter (λ y, key y = k) (x :: l))
      ≡ₚ (if decide (key x ∈ ks') then [x] else [])
         ++ (ks' ≫= λ k, filter (λ y, key y = k) l)) as Haux.
    { clear. induction 1 as [|k ks' Hk Hnd IH]; [done|].
      rewrite !bind_cons, IH, filter_cons.
      destruct (decide (key x = k)) as [<-|Hne].
      - rewrite (decide_True (P := key x ∈ key x :: ks')) by left.
        rewrite (decide_False (P := key x ∈ ks')) by done. done.
      - destruct (decide (key x ∈ ks')) as [Hx|Hx].
        + rewrite (decide_True (P := key x ∈ k :: ks')) by (by right).
          simpl. by rewrite Permutation_middle.
        + rewrite (decide_False (P := key x ∈ k :: ks')); [done|].
          intros [?|?]%elem_of_cons; done. }
    rewrite (Haux ks Hnd). rewrite decide_True by (apply Hin; left).
    simpl. f_equiv. apply IH. intros y Hy. apply Hin. by right.
Qed.

Lemma fmap_bind_l {A B C} (g : B → C) (f : A → list B) (ks : list A) :
  g <$> (ks ≫= f) = ks ≫= (λ k, g <$> f k).
Proof.
  induction ks as [|k ks IH]; [done|]. by rewrite !bind_cons, fmap_app, IH.
Qed.

Lemma bind_perm_ext {A B} (f f' : A → list B) (ks : list A) :
  (∀ k, k ∈ ks → f k ≡ₚ f' k) → ks ≫= f ≡ₚ ks ≫= f'.
Proof.
  induction ks as [|k ks IH]; intros Hf; [done|].
  rewrite !bind_cons. f_equiv; [apply Hf; left|].
  apply IH. intros k' Hk'. apply Hf. by right.
Qed.

Lemma is_kept_type w allAuthors row :
  is_kept w allAuthors row = true → cf_conflicttype row ∈ kept_types.
Proof.
  unfold is_kept. destruct (vet w allAuthors row) as [[v|]|e] eqn:Hv; [|done..].
  intros _. by apply vet_Some in Hv as [? _].
Qed.

(** What the messages of a run render, against the conflicts export. *)
Lemma run_letters_spec w args authors pcconflicts cs ct :
  load_conflicts w (load_allAuthors authors) pcconflicts = Ok (cs, ct) →
  let letters := run_letters w args (shuffle_conflicts w cs 0).1 ct in
  let S := surviving w authors pcconflicts in
  Sorted String.le (lt_recipient <$> letters) ∧
  NoDup (lt_recipient <$> letters) ∧
  (∀ e, e ∈ lt_recipient <$> letters ↔ ∃ row, row ∈ S ∧ cf_email row = e) ∧
  (∀ lt, lt ∈ letters →
     (λ en, (en_paper en, en_authors en)) <$> lt_entries lt
     ≡ₚ record_of w authors <$> filter (λ row, cf_email row = lt_recipient lt) S) ∧
  rendered_pairs letters ≡ₚ (λ row, (cf_email row, cf_paper row)) <$> S ∧
  (∀ lt en, lt ∈ letters → en ∈ lt_entries lt →
     ∃ row, row ∈ S ∧ cf_email row = lt_recipient lt ∧ cf_paper row = en_paper en ∧
            cf_conflicttype row = en_ctype en ∧ en_ctype en ∈ kept_types).
Proof.
  intros Hload letters S.
  set (cs' := (shuffle_conflicts w cs 0).1).
  assert (Hrec : lt_recipient <$> letters = merge_sort String.le (od_keys cs')).
  { apply letters_from_recipients. }
  assert (Hkeys : ∀ e, e ∈ od_keys cs' ↔ ∃ row, row ∈ S ∧ cf_email row = e).
  { intros e. unfold cs'. rewrite shuffle_conflicts_keys.
    pose proof (load_conflicts_keys _ _ _ _ _ e Hload) as Hk. simpl in Hk.
    rewrite Hk. split.
    - intros [?%elem_of_nil|?]; done.
    - by right. }
  assert (Hnd : NoDup (od_keys cs')).
  { unfold cs'. rewrite shuffle_conflicts_keys.
    apply (load_conflicts_NoDup _ _ _ _ _ Hload). simpl. constructor. }
  assert (Hget : ∀ e, od_get e cs'
                      ≡ₚ record_of w authors <$> filter (λ row, cf_email row = e) S).
  { intros e. unfold cs'. rewrite shuffle_conflicts_get.
    pose proof (load_conflicts_get _ _ _ _ _ e Hload) as Hg. simpl in Hg.
    by rewrite Hg. }
  split_and!.
  - rewrite Hrec. apply Sorted_merge_sort. apply _.
  - rewrite Hrec. by rewrite merge_sort_Permutation.
  - intros e. rewrite Hrec, merge_sort_Permutation. apply Hkeys.
  - intros lt [_ [pos ->]]%elem_of_letters_from. simpl.
    rewrite entries_at_records. apply Hget.
  - unfold letters, run_letters. rewrite rendered_pairs_letters_from.
    fold cs'. rewrite merge_sort_Permutation.
    trans ((λ row, (cf_email row, cf_paper row))
             <$> (od_keys cs' ≫= λ k, filter (λ row, cf_email row = k) S)).
    + rewrite fmap_bind_l. apply bind_perm_ext. intros k _.
      rewrite Hget, <-list_fmap_compose.
      assert (∀ (f g : conflict_row → string * string) (l : list conflict_row),
                (∀ x, x ∈ l → f x = g x) → f <$> l = g <$> l) as Hext.
      { intros f g l Hfg. induction l as [|x l IH]; [done|]. rewrite !fmap_cons.
        f_equal; [apply Hfg; left|]. apply IH. intros y Hy. apply Hfg. by right. }
      rewrite (Hext _ (λ row, (cf_email row, cf_paper row))); [done|].
      intros row [Hk _]%list_elem_of_filter. simpl. by rewrite Hk.
    + apply fmap_Permutation, group_by_key_perm; [done|].
      intros row Hrow. apply Hkeys. by exists row.
  - intros lt en [_ [pos ->]]%elem_of_letters_from Hen. simpl in *.
    rewrite (entries_at_ctype _ _ _ _ _ _ _ Hen).
    assert ((en_paper en, en_authors en) ∈ od_get (lt_recipient lt) cs') as Hin.
    { rewrite <-(entries_at_records w (default EmptyString (hashcode args)) ct (lt_recipient lt)
                   (od_get (lt_recipient lt) cs') pos).
      apply list_elem_of_fmap. by exists en. }
    rewrite Hget in Hin. apply list_elem_of_fmap in Hin as (row & Hrow & Hin).
    apply list_elem_of_filter in Hin as [He Hin]. injection Hrow as Hp _.
    pose proof (load_conflicts_types _ _ _ _ _ (lt_recipient lt) (en_paper en) Hload)
      as Hty. simpl in Hty. unfold ctype_of. rewrite Hty. clear Hty.
    destruct (last _) as [row'|] eqn:Hlast.
    + apply last_Some in Hlast as [l' Hl'].
      assert (row' ∈ filter (λ r, cf_email r = lt_recipient lt ∧ cf_paper r = en_paper en)
                       (filter (is_kept w (load_allAuthors authors)) pcconflicts)) as Hr'.
      { rewrite Hl'. apply elem_of_app. right. left. }
      apply list_elem_of_filter in Hr' as [[He' Hp'] Hr'].
      exists row'. simpl. split_and!; try done.
      apply list_elem_of_filter in Hr' as [Hk _].
      apply is_kept_type with w (load_allAuthors authors). by destruct (is_kept _ _ _).
    + apply last_None in Hlast.
      assert (row ∈ filter (λ r, cf_email r = lt_recipient lt ∧ cf_paper r = en_paper en)
                      (filter (is_kept w (load_allAuthors authors)) pcconflicts)) as Hr.
      { apply list_elem_of_filter. done. }
      rewrite Hlast in Hr. by apply elem_of_nil in Hr.
Qed.

(** ** Runs that return *)

Lemma returns_bind {A B} (m : M A) (k : A → M B) s :
  returns m s → (∀ a s', returns (k a) s') → returns (m ≫= k) s.
Proof.
  intros [a Ha] Hk. destruct (m s) as [[r s'] evs] eqn:Hm. simpl in Ha. subst r.
  unfold returns. rewrite (bind_Ok _ _ _ _ _ _ Hm). simpl. apply Hk.
Qed.

Lemma returns_ret {A} (a : A) s : returns (mret a) s.
Proof. by exists a. Qed.

Lemma returns_emit ev s : returns (emit ev) s.
Proof. by exists tt. Qed.

Lemma returns_mfor {B} (l : list B) (f : B → M unit) s :
  (∀ x s', returns (f x) s') → returns (mfor l f) s.
Proof.
  intros Hf. revert s. induction l as [|x l IH]; intros s; simpl.
  - apply returns_ret.
  - apply returns_bind; [apply Hf|]. intros _ s'. apply IH.
Qed.

Lemma notify_dry_returns w hashcode senderName senderFirstName sender u names
    conflicts conflict_types recipient s :
  returns (notify w hashcode senderName senderFirstName sender (Some u) false names
             conflicts conflict_types recipient) s.
Proof.
  unfold notify. apply returns_bind; [apply returns_ret|]. intros _ s1.
  apply returns_bind.
  - unfold compose. apply returns_bind; [by eexists|]. intros body s2.
    apply returns_bind.
    + eexists. rewrite paper_loop_run. reflexivity.
    + intros [msg ind] s3. apply returns_ret.
  - intros msg s2. unfold deliver.
    apply returns_bind; [apply returns_emit|]. intros _ s3.
    apply returns_bind; [apply returns_emit|]. intros _ s4. apply returns_emit.
Qed.

Lemma load_conflicts_total w allAuthors rows acc :
  Forall (λ row, ∃ d, Py.index (Py.split "@" (cf_email row)) 1 = Ok d) rows →
  ∃ res, rfoldl (conflicts_step w allAuthors) acc rows = Ok res.
Proof.
  intros Hrows. revert acc. induction Hrows as [|row rows [d Hd] _ IH]; intros acc; simpl.
  - by eexists.
  - unfold conflicts_step at 1. rewrite (vet_Ok _ _ _ _ Hd).
    destruct (_ && _); simpl; apply IH.
Qed.

(** A dry run on a complete command line returns. *)
Lemma main_dry_returns w args pcinfo authors pcconflicts :
  well_formed args pcconflicts →
  Py.truthy (really_send args) = false →
  (main w args pcinfo authors pcconflicts initial).1.1 = Ok tt.
Proof.
  intros (Hc & Hh & Hn & [email Hemail] & [u Hu] & Hrows) Hdry.
  destruct (load_conflicts_total w (load_allAuthors authors) pcconflicts ([], ∅) Hrows)
    as [[cs ct] Hload].
  assert (returns (main w args pcinfo authors pcconflicts) initial) as [[] Hret]; [|done].
  unfold main. rewrite Hc, Hh, Hn, Hemail, Hu, Hdry. simpl.
  apply returns_bind; [by eexists|]. intros senderName s1.
  apply returns_bind.
  { change (load_conflicts w (load_allAuthors authors) pcconflicts = Ok (cs, ct)) in Hload.
    rewrite Hload. by eexists. }
  intros [cs' ct'] s2.
  apply returns_bind; [apply returns_emit|]. intros _ s3.
  apply returns_bind; [apply returns_emit|]. intros _ s4.
  apply returns_bind; [apply returns_ret|]. intros _ s5.
  apply returns_bind.
  { apply returns_mfor. intros r s6. apply notify_dry_returns. }
  intros _ s6. apply returns_bind; [apply returns_ret|]. intros _ s7.
  apply returns_emit.
Qed.

Lemma returns_smtp w op s :
  W_smtp_ok w (smtp_calls s) = true → returns (smtp w op) s.
Proof. intros Hok. exists tt. unfold smtp. simpl. by rewrite Hok. Qed.

Lemma notify_live_returns w hashcode senderName senderFirstName sender u names
    conflicts conflict_types recipient s :
  (∀ k, W_smtp_ok w k = true) →
  returns (notify w hashcode senderName senderFirstName sender (Some u) true names
             conflicts conflict_types recipient) s.
Proof.
  intros Hok. unfold notify. apply returns_bind; [apply returns_emit|]. intros _ s1.
  apply returns_bind.
  - unfold compose. apply returns_bind; [by eexists|]. intros body s2.
    apply returns_bind.
    + eexists. rewrite paper_loop_run. reflexivity.
    + intros [msg ind] s3. apply returns_ret.
  - intros msg s2. unfold deliver.
    apply returns_bind; [apply returns_emit|]. intros _ s3. by apply returns_smtp.
Qed.

Lemma main_live_returns w args pcinfo authors pcconflicts :
  well_formed args pcconflicts →
  Py.truthy (really_send args) = true →
  (∀ k, W_smtp_ok w k = true) →
  (main w args pcinfo authors pcconflicts initial).1.1 = Ok tt.
Proof.
  intros (Hc & Hh & Hn & [email Hemail] & [u Hu] & Hrows) Hlive Hok.
  destruct (load_conflicts_total w (load_allAuthors authors) pcconflicts ([], ∅) Hrows)
    as [[cs ct] Hload].
  assert (returns (main w args pcinfo authors pcconflicts) initial) as [[] Hret]; [|done].
  unfold main. rewrite Hc, Hh, Hn, Hemail, Hu, Hlive. simpl.
  apply returns_bind; [by eexists|]. intros senderName s1.
  apply returns_bind.
  { change (load_conflicts w (load_allAuthors authors) pcconflicts = Ok (cs, ct)) in Hload.
    rewrite Hload. by eexists. }
  intros [cs' ct'] s2.
  apply returns_bind; [apply returns_emit|]. intros _ s3.
  apply returns_bind; [apply returns_emit|]. intros _ s4.
  apply returns_bind.
  { apply returns_bind; [by apply returns_smtp|]. intros _ s5.
    apply returns_bind; [by apply returns_smtp|]. intros _ s6.
    apply returns_bind; [by apply returns_smtp|]. intros _ s7. by apply returns_smtp. }
  intros _ s5. apply returns_bind.
  { apply returns_mfor. intros r s6. by apply notify_live_returns. }
  intros _ s6. apply returns_bind; [by apply returns_smtp|]. intros _ s7.
  apply returns_emit.
Qed.

(** A run on a complete command line returns, when the SMTP calls of a
    live run all succeed. *)
Lemma main_returns w args pcinfo authors pcconflicts :
  well_formed args pcconflicts →
  (Py.truthy (really_send args) = true → ∀ k, W_smtp_ok w k = true) →
  (main w args pcinfo authors pcconflicts initial).1.1 = Ok tt.
Proof.
  intros Hwf Hsmtp. destruct (Py.truthy (really_send args)) eqn:Hlive.
  - apply main_live_returns; [done|done|by apply Hsmtp].
  - by apply main_dry_returns.
Qed.

(** ** C5: the dry run *)

Lemma script_dry w args pcinfo letters :
  Py.truthy (really_send args) = false →
  run_script w args pcinfo letters =
    [EOpenW uidmap_csv; EWrite uidmap_csv header_row]
    ++ (letters ≫= λ lt, (EWrite uidmap_csv <$> audit_rows lt)
                          ++ (EPrint <$> dry_lines w args pcinfo lt))
    ++ [EClose uidmap_csv].
Proof.
  intros Hdry. unfold run_script, script, session_open, session_close.
  rewrite Hdry. cbn [app]. do 2 f_equal.
  induction letters as [|lt letters IH]; [done|].
  rewrite fmap_cons, bind_cons. cbn [concat]. rewrite <-!app_assoc. rewrite IH.
  unfold block, delivery. cbn [app]. rewrite <-app_assoc. reflexivity.
Qed.

Lemma omap_printed_rows (rows : list string) :
  omap printed (EWrite uidmap_csv <$> rows) = [].
Proof. by induction rows. Qed.

Lemma omap_printed_lines (lines : list string) :
  omap printed (EPrint <$> lines) = lines.
Proof.
  induction lines as [|l lines IH]; [done|]. rewrite fmap_cons. cbn [omap list_omap printed].
  by f_equal.
Qed.

(** C5: without [--really-send] no event of the run is an SMTP call, however
    many reviewers have surviving conflicts; a run on a complete command
    line returns, and a run that returns has printed, for each reviewer with
    a surviving conflict, the notice and the composed message. *)
Theorem dry_run_only_prints w args pcinfo authors pcconflicts :
  Py.truthy (really_send args) = false →
  let run := main w args pcinfo authors pcconflicts initial in
  (∀ op, ESmtp op ∉ run.2) ∧
  (well_formed args pcconflicts → run.1.1 = Ok tt) ∧
  (run.1.1 = Ok tt →
     ∃ letters,
       (∀ e, e ∈ lt_recipient <$> letters ↔
             ∃ row, row ∈ surviving w authors pcconflicts ∧ cf_email row = e) ∧
       run.2 = [EOpenW uidmap_csv; EWrite uidmap_csv header_row]
               ++ (letters ≫= λ lt, (EWrite uidmap_csv <$> audit_rows lt)
                                     ++ (EPrint <$> dry_lines w args pcinfo lt))
               ++ [EClose uidmap_csv] ∧
       omap printed run.2 = letters ≫= dry_lines w args pcinfo).
Proof.
  intros Hdry run.
  pose proof (main_shape w args pcinfo authors pcconflicts) as Hshape.
  cbv zeta in Hshape. fold run in Hshape.
  destruct Hshape as [[Hfail Hevs]|(cs & ct & Hload & Hopen & Hpre & Hok2)].
  - split_and!.
    + intros op Hin. destruct Hevs as [Hevs|Hevs]; rewrite Hevs in Hin.
      * by apply elem_of_nil in Hin.
      * by apply list_elem_of_singleton in Hin.
    + intros Hwf. by apply main_dry_returns.
    + done.
  - pose proof (λ H, proj1 (Hok2 H)) as Hok.
    set (letters := run_letters _ _ _ _) in *.
    rewrite (script_dry _ _ _ _ Hdry) in Hpre, Hok.
    split_and!.
    + intros op Hin. destruct Hpre as [k Hk].
      assert (ESmtp op ∈ run.2 ++ k) as Hin' by (apply elem_of_app; by left).
      rewrite <-Hk in Hin'.
      apply elem_of_app in Hin' as [Hin'|Hin'].
      { apply elem_of_cons in Hin' as [?|Hin']; [done|].
        by apply list_elem_of_singleton in Hin'. }
      apply elem_of_app in Hin' as [Hin'|Hin']; [|by apply list_elem_of_singleton in Hin'].
      apply list_elem_of_bind in Hin' as (lt & Hin' & _).
      apply elem_of_app in Hin' as [Hin'|Hin'];
        apply list_elem_of_fmap in Hin' as (? & ? & _); done.
    + intros Hwf. by apply main_dry_returns.
    + intros Hret. exists letters. split_and!.
      * apply (run_letters_spec w args authors pcconflicts cs ct Hload).
      * by apply Hok.
      * rewrite (Hok Hret), !omap_app.
        replace (omap printed [EOpenW uidmap_csv; EWrite uidmap_csv header_row])
          with (@nil string) by done.
        replace (omap printed [EClose uidmap_csv]) with (@nil string) by done.
        rewrite app_nil_l, app_nil_r. clear.
        induction letters as [|lt letters IH]; [done|].
        rewrite !bind_cons, !omap_app, IH, omap_printed_rows, omap_printed_lines. done.
Qed.

Lemma dry_run_only_prints_witness :
  Py.truthy (really_send args_dry) = false ∧
  ESmtp Quit ∉
    (main world_counting args_dry pcinfo_alice authors_elsewhere conflicts_two initial).2.
Proof.
  split; [reflexivity|].
  exact (proj1 (dry_run_only_prints world_counting args_dry pcinfo_alice authors_elsewhere
                  conflicts_two eq_refl) Quit).
Defined.

(** ** C8: the order of recipients and of their lines *)

(** C8: the messages of a run go to the reviewers with a surviving
    conflict, each once, in ascending order of address; the conflicts that
    a message lists are a rearrangement of the surviving rows of its
    reviewer.  A run on a complete command line returns (the SMTP calls of
    a live run succeeding), and a run that returns has worked through all
    of these reviewers; a run that an exception ends has either stopped
    before the first of them, with nothing but the usage text printed, or
    worked through the first of them. *)
Theorem recipients_ascending w args pcinfo authors pcconflicts :
  let run := main w args pcinfo authors pcconflicts initial in
  (well_formed args pcconflicts →
   (Py.truthy (really_send args) = true → ∀ k, W_smtp_ok w k = true) →
   run.1.1 = Ok tt) ∧
  ((run.1.1 ≠ Ok tt ∧ (run.2 = [] ∨ run.2 = [EPrintHelp])) ∨
   ∃ letters,
     run.2 `prefix_of` run_script w args pcinfo letters ∧
     (run.1.1 = Ok tt → run.2 = run_script w args pcinfo letters) ∧
     Sorted String.le (lt_recipient <$> letters) ∧
     NoDup (lt_recipient <$> letters) ∧
     (∀ e, e ∈ lt_recipient <$> letters ↔
           ∃ row, row ∈ surviving w authors pcconflicts ∧ cf_email row = e) ∧
     (∀ lt, lt ∈ letters →
        (λ en, (en_paper en, en_authors en)) <$> lt_entries lt
        ≡ₚ record_of w authors
             <$> filter (λ row, cf_email row = lt_recipient lt)
                   (surviving w authors pcconflicts))).
Proof.
  intros run. split; [apply main_returns|].
  pose proof (main_shape w args pcinfo authors pcconflicts) as Hshape.
  cbv zeta in Hshape. fold run in Hshape.
  destruct Hshape as [[Hfail Hevs]|(cs & ct & Hload & Hopen & Hpre & Hok2)]; [by left|].
  pose proof (λ H, proj1 (Hok2 H)) as Hok.
  right. exists (run_letters w args (shuffle_conflicts w cs 0).1 ct).
  destruct (run_letters_spec w args authors pcconflicts cs ct Hload)
    as (Hsorted & Hnd & Hrec & Hent & _).
  done.
Qed.

Lemma recipients_ascending_witness :
  (main world_counting args_dry pcinfo_alice authors_elsewhere conflicts_two initial).1.1
  = Ok tt.
Proof.
  refine (proj1 (recipients_ascending world_counting args_dry pcinfo_alice
                   authors_elsewhere conflicts_two) _ _).
  - unfold well_formed. split_and!; try reflexivity; try (by eexists).
    repeat constructor; by eexists.
  - intros Hlive. discriminate Hlive.
Defined.

(** A run with two reviewers, exported in descending order. *)
Example recipients_ascending_run :
  let run := main world_counting args_dry pcinfo_alice authors_elsewhere conflicts_two
               initial in
  run.1.1 = Ok tt ∧
  omap (written uidmap_csv) run.2 =
    [header_row; uidmap_row "a@univ.edu" "12" "..CA.uOD/eaG";
     uidmap_row "zoe@univ.edu" "30" "C/CQCvOTDfaW"].
Proof. split; by vm_compute. Qed.

(** ** C3: the kept conflict types *)

(** C3: a row of the conflicts export passes the filter only with one of
    the three kept types; the messages and the audit file of a run render
    exactly the rows that pass, each rendered conflict with a kept type. *)
Theorem only_kept_types_surface w args pcinfo authors pcconflicts :
  (∀ row v, vet w (load_allAuthors authors) row = Ok (Some v) →
            cf_conflicttype row ∈ kept_types) ∧
  (∀ row, cf_conflicttype row ∉ kept_types → row ∉ surviving w authors pcconflicts) ∧
  let run := main w args pcinfo authors pcconflicts initial in
  ((run.2 = [] ∨ run.2 = [EPrintHelp]) ∨
   ∃ letters,
     run.2 `prefix_of` run_script w args pcinfo letters ∧
     (run.1.1 = Ok tt → run.2 = run_script w args pcinfo letters) ∧
     rendered_pairs letters
       ≡ₚ (λ row, (cf_email row, cf_paper row)) <$> surviving w authors pcconflicts ∧
     (∀ lt en, lt ∈ letters → en ∈ lt_entries lt →
        en_ctype en ∈ kept_types ∧
        ∃ row, row ∈ pcconflicts ∧ cf_email row = lt_recipient lt ∧
               cf_paper row = en_paper en ∧ cf_conflicttype row ∈ kept_types)).
Proof.
  split_and!.
  - intros row v Hv. by apply vet_Some in Hv as [? _].
  - intros row Hty [Hk _]%list_elem_of_filter. apply Hty.
    apply is_kept_type with w (load_allAuthors authors). by destruct (is_kept _ _ _).
  - intros run.
    pose proof (main_shape w args pcinfo authors pcconflicts) as Hshape.
    cbv zeta in Hshape. fold run in Hshape.
    destruct Hshape as [[Hfail Hevs]|(cs & ct & Hload & Hopen & Hpre & Hok2)]; [by left|].
    pose proof (λ H, proj1 (Hok2 H)) as Hok.
  right. exists (run_letters w args (shuffle_conflicts w cs 0).1 ct).
    destruct (run_letters_spec w args authors pcconflicts cs ct Hload)
      as (_ & _ & _ & _ & Hpairs & Hty).
    split_and!; try done.
    intros lt en Hlt Hen. destruct (Hty lt en Hlt Hen) as (row & Hrow & He & Hp & Hc & Hk).
    split; [done|]. exists row. apply list_elem_of_filter in Hrow as [_ Hrow].
    split_and!; try done. by rewrite Hc.
Qed.

(** The co-authorship in the sample export does not pass the filter. *)
Example coauthorship_dropped :
  surviving world_counting authors_elsewhere conflicts_two = take 2 conflicts_two.
Proof. by vm_compute. Qed.

(** ** C1: audit rows and messages *)

Lemma script_split w args pcinfo letters lt :
  lt ∈ letters →
  ∃ before after,
    run_script w args pcinfo letters =
      before ++ (EWrite uidmap_csv <$> audit_rows lt) ++ run_delivery w args pcinfo lt
      ++ after.
Proof.
  intros (l1 & l2 & ->)%list_elem_of_split.
  unfold run_script, run_delivery, script.
  set (sn := default EmptyString (your_name args) +:+ " <" +:+ default EmptyString (your_email args) +:+ ">").
  set (blk := block w sn (default EmptyString (your_name args)) (default EmptyString (your_email args))
                (default EmptyString (form_url args)) (Py.truthy (really_send args))
                (load_names w pcinfo)).
  set (opening := session_open _ _ _).
  set (ending := session_close _).
  exists ([EOpenW uidmap_csv; EWrite uidmap_csv header_row] ++ opening
          ++ concat (blk <$> l1)
          ++ (if Py.truthy (really_send args) then [ESleep 1] else [])).
  exists (concat (blk <$> l2) ++ ending ++ [EClose uidmap_csv]).
  rewrite fmap_app, fmap_cons, concat_app, concat_cons.
  unfold blk at 2. unfold block.
  rewrite <-!app_assoc. reflexivity.
Qed.

(** C1, as stated, fails: the export lists the conflict of [a@univ.edu]
    with paper 12 twice; both rows survive, the message renders both, and
    the audit file holds two rows for the pair, not one. *)
Lemma duplicate_rows_counterexample :
  let run := main world_counting args_dry [] authors_elsewhere conflicts_twice initial in
  run.1.1 = Ok tt ∧
  omap (written uidmap_csv) run.2 =
    [header_row; uidmap_row "a@univ.edu" "12" "..CA.uOD/eaG";
     uidmap_row "a@univ.edu" "12" "C/CQCvOTDfaW"] ∧
  ∃ cs ct,
    load_conflicts world_counting (load_allAuthors authors_elsewhere) conflicts_twice
      = Ok (cs, ct) ∧
    rendered_pairs (run_letters world_counting args_dry (shuffle_conflicts world_counting cs 0).1 ct)
      = [("a@univ.edu", "12"); ("a@univ.edu", "12")].
Proof.
  split_and!; [by vm_compute..|].
  eexists _, _. split; [by vm_compute|]. by vm_compute.
Qed.

(** C1 (amended): in every run, the audit rows of a message are written
    right before the message is sent or printed, one row for each conflict
    the message renders, in the order of its lines.  Over the whole run the
    rendered (reviewer, paper) pairs are those of the surviving rows of the
    conflicts export, each as often as it survives: a pair has exactly one
    audit row when the surviving rows do not repeat it. *)
Theorem audit_rows_precede_delivery w args pcinfo authors pcconflicts :
  let run := main w args pcinfo authors pcconflicts initial in
  let pairs := (λ row, (cf_email row, cf_paper row)) <$> surviving w authors pcconflicts in
  (run.2 = [] ∨ run.2 = [EPrintHelp]) ∨
  ∃ letters,
    run.2 `prefix_of` run_script w args pcinfo letters ∧
    (run.1.1 = Ok tt → run.2 = run_script w args pcinfo letters) ∧
    (∀ lt, lt ∈ letters →
       ∃ before after,
         run_script w args pcinfo letters =
           before ++ (EWrite uidmap_csv <$> audit_rows lt)
           ++ run_delivery w args pcinfo lt ++ after) ∧
    NoDup (lt_recipient <$> letters) ∧
    rendered_pairs letters ≡ₚ pairs ∧
    (NoDup pairs → NoDup (rendered_pairs letters)).
Proof.
  intros run pairs.
  pose proof (main_shape w args pcinfo authors pcconflicts) as Hshape.
  cbv zeta in Hshape. fold run in Hshape.
  destruct Hshape as [[Hfail Hevs]|(cs & ct & Hload & Hopen & Hpre & Hok2)]; [by left|].
  pose proof (λ H, proj1 (Hok2 H)) as Hok.
  right. exists (run_letters w args (shuffle_conflicts w cs 0).1 ct).
  destruct (run_letters_spec w args authors pcconflicts cs ct Hload)
    as (_ & Hnd & _ & _ & Hpairs & _).
  split_and!; try done.
  - intros lt Hlt. by apply script_split.
  - intros Hp. by rewrite Hpairs.
Qed.

(** ** C10: the audit file *)

Lemma file_after_app path content evs1 evs2 :
  file_after path content (evs1 ++ evs2)
  = file_after path (file_after path content evs1) evs2.
Proof.
  revert content. induction evs1 as [|ev evs1 IH]; intros content; [done|].
  destruct ev; simpl; apply IH.
Qed.

(** Without a new [open], the file only grows. *)
Lemma file_after_no_open path content evs :
  Forall (λ ev, ev ≠ EOpenW path) evs →
  file_after path content evs = content +:+ concat_s (omap (written path) evs).
Proof.
  intros Hevs. revert content.
  induction Hevs as [|ev evs Hev _ IH]; intros content; simpl.
  - by rewrite app_nil_r_s.
  - destruct ev as [p|p data| | | | |]; simpl; try apply IH.
    + rewrite decide_False; [apply IH|]. by intros ->.
    + destruct (decide (p = path)); simpl; [|apply IH].
      rewrite IH. by rewrite app_assoc_s.
Qed.

Lemma script_body w args pcinfo letters :
  ∃ body,
    run_script w args pcinfo letters
      = EOpenW uidmap_csv :: EWrite uidmap_csv header_row :: body ∧
    Forall (λ ev, ev ≠ EOpenW uidmap_csv) body ∧
    omap (written uidmap_csv) body = letters ≫= audit_rows.
Proof.
  unfold run_script, script. eexists. split; [reflexivity|].
  set (b := Py.truthy (really_send args)).
  split.
  - rewrite !Forall_app. split_and!.
    + unfold session_open. destruct b; repeat constructor; done.
    + induction letters as [|lt letters IH]; [constructor|].
      rewrite fmap_cons, concat_cons, Forall_app. split; [|done].
      unfold block, delivery. rewrite !Forall_app. split_and!.
      * destruct b; repeat constructor; done.
      * apply Forall_fmap, Forall_true. done.
      * destruct b; repeat constructor; done.
    + unfold session_close. destruct b; repeat constructor; done.
    + repeat constructor; done.
  - rewrite !omap_app.
    replace (omap (written uidmap_csv) (session_open _ _ b)) with (@nil string)
      by (by destruct b).
    replace (omap (written uidmap_csv) (session_close b)) with (@nil string)
      by (by destruct b).
    replace (omap (written uidmap_csv) [EClose uidmap_csv]) with (@nil string) by done.
    rewrite app_nil_l, !app_nil_r.
    induction letters as [|lt letters IH]; [done|].
    rewrite fmap_cons, concat_cons, bind_cons, omap_app, IH. f_equal.
    unfold block, delivery. rewrite !omap_app.
    replace (omap (written uidmap_csv) (if b then [ESleep 1] else [])) with (@nil string)
      by (by destruct b).
    rewrite app_nil_l.
    match goal with
    | |- _ ++ ?d = _ => replace d with (@nil string) by (by destruct b)
    end.
    rewrite app_nil_r. generalize (audit_rows lt). intros rows.
    induction rows as [|r rows IHr]; [done|].
    rewrite fmap_cons. cbn [omap list_omap written]. rewrite decide_True by done.
    by f_equal.
Qed.

Lemma omap_prefix {A B} (f : A → option B) (l1 l2 : list A) :
  l1 `prefix_of` l2 → omap f l1 `prefix_of` omap f l2.
Proof. intros [k ->]. rewrite omap_app. by eexists. Qed.

(** C10, as stated, fails: a first run leaves two rows in the audit file;
    a second run, on an export without conflicts, leaves the header alone:
    the rows of the first run are gone. *)
Lemma previous_rows_counterexample :
  let first := main world_counting args_dry [] authors_elsewhere conflicts_two initial in
  let second := main world_counting args_dry [] authors_elsewhere [] initial in
  let file1 := file_after uidmap_csv EmptyString first.2 in
  file1 = header_row +:+ uidmap_row "a@univ.edu" "12" "..CA.uOD/eaG"
          +:+ uidmap_row "zoe@univ.edu" "30" "C/CQCvOTDfaW" ∧
  second.1.1 = Ok tt ∧
  file_after uidmap_csv file1 second.2 = header_row.
Proof. split_and!; by vm_compute. Qed.

Lemma generated_rows_app w hashcode pos pairs1 pairs2 :
  generated_rows w hashcode pos (pairs1 ++ pairs2)
  = generated_rows w hashcode pos pairs1
    ++ generated_rows w hashcode (pos + 16 * length pairs1) pairs2.
Proof.
  revert pos. induction pairs1 as [|[e p] pairs1 IH]; intros pos.
  - simpl. by rewrite Nat.add_0_r.
  - cbn [app generated_rows length]. rewrite IH. do 3 f_equal. lia.
Qed.

Lemma entries_rows w hashcode conflict_types recipient c pos :
  audit_rows {| lt_recipient := recipient;
                lt_entries := entries_at w hashcode conflict_types recipient c pos |}
  = generated_rows w hashcode pos ((λ x, (recipient, x.1)) <$> c).
Proof.
  unfold audit_rows. cbn [lt_recipient lt_entries]. revert pos.
  induction c as [|[paper_id l] c IH]; intros pos; [done|].
  cbn [entries_at fmap list_fmap generated_rows fst en_paper en_uid]. by rewrite IH.
Qed.

(** The audit rows of the messages are the rows of the tokens generated
    for the pairs that the messages render, in that order. *)
Lemma letters_rows w hashcode conflicts conflict_types rs pos :
  letters_from w hashcode conflicts conflict_types rs pos ≫= audit_rows
  = generated_rows w hashcode pos
      (rendered_pairs (letters_from w hashcode conflicts conflict_types rs pos)).
Proof.
  rewrite rendered_pairs_letters_from. revert pos.
  induction rs as [|r rs IH]; intros pos; [done|].
  cbn [letters_from]. rewrite !bind_cons, generated_rows_app, length_fmap, IH.
  f_equal. apply entries_rows.
Qed.

Lemma omap_written_rows (rows : list string) :
  omap (written uidmap_csv) (EWrite uidmap_csv <$> rows) = rows.
Proof.
  induction rows as [|r rows IH]; [done|].
  rewrite fmap_cons. cbn [omap list_omap written]. rewrite decide_True by done.
  by f_equal.
Qed.

Lemma rows_match_salts_bind {A B} (m : M A) (k : A → M B) s :
  rows_match_salts m s → (∀ a s', rows_match_salts (k a) s') →
  rows_match_salts (m ≫= k) s.
Proof.
  unfold rows_match_salts. intros Hm Hk.
  destruct (m s) as [[[a|e] s'] evs] eqn:Hms; simpl in Hm.
  - rewrite (bind_Ok _ _ _ _ _ _ Hms). simpl.
    rewrite (Hk a s'), Hm, omap_app, length_app. lia.
  - by rewrite (bind_Raise _ _ _ _ _ _ Hms).
Qed.

Lemma rows_match_salts_lift {A} (r : result A) s : rows_match_salts (lift r) s.
Proof. unfold rows_match_salts, lift. simpl. lia. Qed.

Lemma rows_match_salts_emit ev s :
  written uidmap_csv ev = None → rows_match_salts (emit ev) s.
Proof. unfold rows_match_salts, emit. simpl. intros ->. simpl. lia. Qed.

Lemma rows_match_salts_smtp w op s : rows_match_salts (smtp w op) s.
Proof. unfold rows_match_salts, smtp. simpl. lia. Qed.

Lemma rows_match_salts_mfor {B} (l : list B) (f : B → M unit) s :
  (∀ x s', rows_match_salts (f x) s') → rows_match_salts (mfor l f) s.
Proof.
  intros Hf. revert s. induction l as [|x l IH]; intros s; simpl.
  - apply (rows_match_salts_lift (Ok tt)).
  - apply rows_match_salts_bind; [apply Hf|]. intros _ s'. apply IH.
Qed.

Lemma rows_match_salts_notify w hashcode senderName senderFirstName sender form_url
    reallySendMail names conflicts conflict_types recipient s :
  rows_match_salts
    (notify w hashcode senderName senderFirstName sender form_url reallySendMail names
       conflicts conflict_types recipient) s.
Proof.
  unfold notify. apply rows_match_salts_bind.
  { destruct reallySendMail; [by apply rows_match_salts_emit|].
    apply (rows_match_salts_lift (Ok tt)). }
  intros _ s1. apply rows_match_salts_bind.
  - unfold compose. apply rows_match_salts_bind; [apply rows_match_salts_lift|].
    intros body s2. apply rows_match_salts_bind.
    + unfold rows_match_salts. rewrite paper_loop_run. cbn [fst snd urandom_pos].
      rewrite omap_written_rows. unfold audit_rows. cbn [lt_entries].
      rewrite length_fmap, <-(length_fmap (λ e, (en_paper e, en_authors e))).
      by rewrite entries_at_records.
    + intros [msg ind] s3. apply (rows_match_salts_lift (Ok (msg +:+ _))).
  - intros msg s2. unfold deliver. destruct reallySendMail.
    + apply rows_match_salts_bind; [by apply rows_match_salts_emit|]. intros _ s3.
      apply rows_match_salts_smtp.
    + apply rows_match_salts_bind; [by apply rows_match_salts_emit|]. intros _ s3.
      apply rows_match_salts_bind; [by apply rows_match_salts_emit|]. intros _ s4.
      by apply rows_match_salts_emit.
Qed.

(** At the end of a run, be it by an exception, the salts read are as many
    as the rows written after the header. *)
Lemma main_rows_match_salts w args pcinfo authors pcconflicts :
  let run := main w args pcinfo authors pcconflicts initial in
  urandom_pos run.1.2 = 16 * pred (length (omap (written uidmap_csv) run.2)).
Proof.
  unfold main.
  destruct (Py.truthy (conference args)); simpl; [|done].
  destruct (Py.truthy (hashcode args)); simpl; [|done].
  destruct (Py.truthy (your_name args)); simpl; [|done].
  destruct (your_email args) as [email|]; simpl; [|done].
  rewrite bind_lift_Ok.
  destruct (load_conflicts w (load_allAuthors authors) pcconflicts) as [[cs ct]|e];
    [|done].
  rewrite bind_lift_Ok. cbn beta iota zeta.
  erewrite bind_Ok; [|reflexivity]. erewrite bind_Ok; [|reflexivity].
  cbn [fst snd app omap list_omap written]. rewrite !decide_True by done.
  cbn [omap list_omap written length pred].
  match goal with
  | |- context [urandom_pos (?m initial).1.2] =>
      assert (rows_match_salts m initial) as Hm
  end; [|exact Hm].
  apply rows_match_salts_bind.
  { destruct (Py.truthy (really_send args)); [|apply (rows_match_salts_lift (Ok tt))].
    apply rows_match_salts_bind; [apply rows_match_salts_smtp|]. intros _ s1.
    apply rows_match_salts_bind; [apply rows_match_salts_smtp|]. intros _ s2.
    apply rows_match_salts_bind; [apply rows_match_salts_smtp|]. intros _ s3.
    apply rows_match_salts_smtp. }
  intros _ s1. apply rows_match_salts_bind.
  { apply rows_match_salts_mfor. intros r s2. apply rows_match_salts_notify. }
  intros _ s2. apply rows_match_salts_bind.
  { destruct (Py.truthy (really_send args)); [apply rows_match_salts_smtp|].
    apply (rows_match_salts_lift (Ok tt)). }
  intros _ s3. by apply rows_match_salts_emit.
Qed.

(** C10 (amended): a run on a complete command line returns (the SMTP
    calls of a live run succeeding), and a run that does not stop before
    its tables are built opens the audit file anew, once, as its first
    act: whatever the file held before, it then holds the header line
    followed by the rows of this run alone.  These rows are the rows of the
    tokens generated for the surviving conflicts, in the order generated:
    the row at place [k] carries the token of the salt read at place [k],
    a run that returns has written them all, and at the end of a run, be
    it by an exception, the salts read are as many as the rows written.
    While the run lasts the file only grows: rows once written are neither
    changed nor removed. *)
Theorem audit_file_rewritten w args pcinfo authors pcconflicts old :
  let run := main w args pcinfo authors pcconflicts initial in
  (∀ hashcode recipient paper_id s,
     obfuscate w hashcode recipient paper_id s
     = (Ok (token w hashcode recipient paper_id (urandom_pos s)),
        {| urandom_pos := urandom_pos s + 16; smtp_calls := smtp_calls s |},
        [EWrite uidmap_csv
           (uidmap_row recipient paper_id
              (token w hashcode recipient paper_id (urandom_pos s)))])) ∧
  (well_formed args pcconflicts →
   (Py.truthy (really_send args) = true → ∀ k, W_smtp_ok w k = true) →
   run.1.1 = Ok tt) ∧
  ((run.1.1 ≠ Ok tt ∧ (run.2 = [] ∨ run.2 = [EPrintHelp]) ∧
    file_after uidmap_csv old run.2 = old) ∨
   ∃ cs ct rest,
     load_conflicts w (load_allAuthors authors) pcconflicts = Ok (cs, ct) ∧
     let pairs := rendered_pairs (run_letters w args (shuffle_conflicts w cs 0).1 ct) in
     let generated := generated_rows w (default EmptyString (hashcode args)) 0 pairs in
     let rows := omap (written uidmap_csv) rest in
     pairs ≡ₚ (λ row, (cf_email row, cf_paper row)) <$> surviving w authors pcconflicts ∧
     run.2 = EOpenW uidmap_csv :: EWrite uidmap_csv header_row :: rest ∧
     Forall (λ ev, ev ≠ EOpenW uidmap_csv) rest ∧
     rows `prefix_of` generated ∧
     (run.1.1 = Ok tt → rows = generated) ∧
     urandom_pos run.1.2 = 16 * length rows ∧
     file_after uidmap_csv old run.2 = header_row +:+ concat_s rows ∧
     (∀ evs1 evs2, run.2 = evs1 ++ evs2 → evs1 ≠ [] →
        file_after uidmap_csv old run.2
        = file_after uidmap_csv old evs1 +:+ concat_s (omap (written uidmap_csv) evs2))).
Proof.
  intros run. split; [intros; apply obfuscate_run|]. split; [apply main_returns|].
  pose proof (main_shape w args pcinfo authors pcconflicts) as Hshape.
  pose proof (main_rows_match_salts w args pcinfo authors pcconflicts) as Hsalts.
  cbv zeta in Hshape, Hsalts. fold run in Hshape, Hsalts.
  destruct Hshape as [[Hfail Hevs]|(cs & ct & Hload & Hopen & Hpre & Hok2)].
  { left. split; [done|]. split; [done|]. by destruct Hevs as [-> | ->]. }
  pose proof (λ H, proj1 (Hok2 H)) as Hok.
  right. set (letters := run_letters _ _ _ _) in *.
  destruct (script_body w args pcinfo letters) as (body & Hscript & Hbody & Hrows).
  rewrite Hscript in Hpre, Hok.
  destruct Hopen as [rest Hrest]. simpl in Hrest.
  assert (rest `prefix_of` body) as Hrb.
  { rewrite Hrest in Hpre. by do 2 apply prefix_cons_inv_2 in Hpre. }
  assert (Forall (λ ev, ev ≠ EOpenW uidmap_csv) rest) as Hno.
  { destruct Hrb as [k ->]. by apply Forall_app in Hbody as [? _]. }
  assert (letters ≫= audit_rows
          = generated_rows w (default EmptyString (hashcode args)) 0 (rendered_pairs letters))
    as Hgen by apply letters_rows.
  destruct (run_letters_spec w args authors pcconflicts cs ct Hload)
    as (_ & _ & _ & _ & Hpairs & _).
  exists cs, ct, rest. split; [done|]. cbv zeta. fold letters. split_and!.
  - exact Hpairs.
  - exact Hrest.
  - exact Hno.
  - rewrite <-Hgen, <-Hrows. by apply omap_prefix.
  - intros Hret. rewrite <-Hgen, <-Hrows. f_equal.
    specialize (Hok Hret). rewrite Hrest in Hok. by simplify_eq.
  - rewrite Hsalts, Hrest. cbn [omap list_omap written]. rewrite decide_True by done.
    done.
  - rewrite Hrest. simpl. by rewrite (file_after_no_open _ _ _ Hno).
  - intros evs1 evs2 Hsplit Hne. rewrite Hsplit, file_after_app.
    apply file_after_no_open.
    rewrite Hrest in Hsplit. destruct evs1 as [|ev evs1]; [done|].
    simpl in Hsplit. injection Hsplit as <- Hsplit.
    assert (Forall (λ ev, ev ≠ EOpenW uidmap_csv)
              (EWrite uidmap_csv header_row :: rest)) as Hall by (by constructor).
    rewrite Hsplit in Hall. by apply Forall_app in Hall as [_ ?].
Qed.

Lemma audit_file_rewritten_witness :
  (main world_counting args_dry [] authors_elsewhere conflicts_two initial).1.1 = Ok tt.
Proof.
  refine (proj1 (proj2 (audit_file_rewritten world_counting args_dry []
                          authors_elsewhere conflicts_two EmptyString)) _ _).
  - unfold well_formed. split_and!; try reflexivity; try (by eexists).
    repeat constructor; by eexists.
  - intros Hlive. discriminate Hlive.
Defined.

(** * Further properties *)

(** ** Splitting *)

Lemma contains_app c (s1 s2 : string) :
  Py.contains c (s1 +:+ s2) = Py.contains c s1 || Py.contains c s2.
Proof.
  induction s1 as [|c1 s1 IH]; [done|]. rewrite app_cons_s. simpl.
  by rewrite IH, orb_assoc.
Qed.

Lemma split_not_nil sep s : Py.split sep s ≠ [].
Proof.
  destruct s as [|c s]; simpl; [done|].
  destruct (Ascii.eqb c sep); [done|]. by destruct (Py.split sep s).
Qed.

Lemma split_no_sep sep s : Py.contains sep s = false → Py.split sep s = [s].
Proof.
  induction s as [|c s IH]; simpl; [done|].
  intros [Hc Hs]%orb_false_iff. rewrite Hc, (IH Hs). done.
Qed.

Lemma split_app_sep sep (s1 s2 : string) :
  Py.contains sep s1 = false →
  Py.split sep (s1 +:+ String sep s2) = s1 :: Py.split sep s2.
Proof.
  induction s1 as [|c s1 IH]; simpl.
  - intros _. by rewrite Ascii.eqb_refl.
  - intros [Hc Hs]%orb_false_iff. rewrite Hc, (IH Hs). done.
Qed.

Lemma split_with_sep sep s :
  Py.contains sep s = true → ∃ a b l, Py.split sep s = a :: b :: l.
Proof.
  induction s as [|c s IH]; simpl; [done|].
  destruct (Ascii.eqb c sep) eqn:Hc; simpl.
  - intros _. destruct (Py.split sep s) as [|b l] eqn:Hs; [by apply split_not_nil in Hs|].
    by eexists _, _, _.
  - intros Hs. destruct (IH Hs) as (a & b & l & ->). by eexists _, _, _.
Qed.

Lemma drop_last_snoc (s : string) c : Py.drop_last (s +:+ String c EmptyString) = s.
Proof.
  induction s as [|c' s IH]; [done|]. rewrite app_cons_s. simpl.
  destruct (s +:+ String c EmptyString) eqn:Hs.
  - by destruct s.
  - by rewrite IH.
Qed.

(** ** The reviewer's address *)

Lemma vet_no_at w allAuthors row :
  Py.contains "@" (cf_email row) = false → vet w allAuthors row = Raise IndexError.
Proof.
  intros Hc. apply vet_Raise. by rewrite (split_no_sep _ _ Hc).
Qed.

Lemma vet_with_at w allAuthors row :
  Py.contains "@" (cf_email row) = true → ∃ v, vet w allAuthors row = Ok v.
Proof.
  intros Hc. destruct (split_with_sep _ _ Hc) as (a & d & l & Hs).
  assert (Py.index (Py.split "@" (cf_email row)) 1 = Ok d) as Hd by (by rewrite Hs).
  rewrite (vet_Ok _ _ _ _ Hd). by eexists.
Qed.

(** [row["email"].split("@")[1]] raises [IndexError] exactly when the
    address holds no [@], whatever the conflict type of the row; the row is
    otherwise vetted without an exception. *)
Theorem vet_raises_iff w allAuthors row :
  (vet w allAuthors row = Raise IndexError ↔ Py.contains "@" (cf_email row) = false) ∧
  ((∃ v, vet w allAuthors row = Ok v) ↔ Py.contains "@" (cf_email row) = true).
Proof.
  destruct (Py.contains "@" (cf_email row)) eqn:Hc.
  - destruct (vet_with_at w allAuthors row Hc) as [v Hv]. rewrite Hv.
    split; [done|]. split; [done|]. by eexists.
  - rewrite (vet_no_at w allAuthors row Hc).
    split; [done|]. split; [|done]. by intros [v ?].
Qed.

Lemma load_conflicts_raises w allAuthors rows acc row :
  row ∈ rows → Py.contains "@" (cf_email row) = false →
  rfoldl (conflicts_step w allAuthors) acc rows = Raise IndexError.
Proof.
  intros Hin Hrow. revert acc.
  induction Hin as [row rows|row row' rows Hin IH]; intros acc; simpl.
  - unfold conflicts_step at 1.
    by rewrite (vet_no_at w allAuthors row Hrow).
  - destruct (Py.contains "@" (cf_email row')) eqn:Hc.
    + destruct (vet_with_at w allAuthors row' Hc) as [v Hv].
      unfold conflicts_step at 1. rewrite Hv. destruct v; simpl; by apply IH.
    + unfold conflicts_step at 1.
      by rewrite (vet_no_at w allAuthors row' Hc).
Qed.

(** A reviewer address without [@] anywhere in the conflicts export, be it
    in a row whose conflict type is dropped, ends the run with [IndexError]
    before it has opened the audit file, printed or sent anything. *)
Theorem bad_reviewer_address_aborts w args pcinfo authors pcconflicts row s :
  complete args →
  row ∈ pcconflicts →
  Py.contains "@" (cf_email row) = false →
  main w args pcinfo authors pcconflicts s = (Raise IndexError, s, []).
Proof.
  intros (Hc & Hh & Hn & [email Hemail]) Hin Hrow.
  unfold main. rewrite Hc, Hh, Hn, Hemail. simpl.
  erewrite bind_Ok by reflexivity. simpl.
  erewrite bind_Raise; [reflexivity|].
  unfold lift, load_conflicts. by rewrite (load_conflicts_raises _ _ _ _ _ Hin Hrow).
Qed.

Lemma bad_reviewer_address_aborts_witness :
  main world_counting args_dry pcinfo_alice authors_elsewhere (conflicts_two ++ [row_no_at])
    initial
  = (Raise IndexError, initial, []).
Proof.
  apply (bad_reviewer_address_aborts _ _ _ _ _ row_no_at).
  - unfold complete, args_dry; simpl. split_and!; try reflexivity. by eexists.
  - apply elem_of_app. right. left.
  - reflexivity.
Defined.

(** ** The authors of a paper *)

Lemma load_allAuthors_lookup authors paper :
  load_allAuthors authors !!! paper
  = author_text <$> filter (λ row, au_paper row = paper) authors.
Proof.
  unfold load_allAuthors. induction authors as [|row authors IH] using rev_ind; [done|].
  rewrite foldl_snoc, filter_app, fmap_app. unfold allAuthors_step at 1.
  unfold lookup_total, map_lookup_total in *. rewrite lookup_insert.
  destruct (decide (au_paper row = paper)) as [<-|Hne].
  - rewrite IH.
    rewrite filter_cons_True, filter_nil by done. done.
  - rewrite IH.
    rewrite filter_cons_False, filter_nil by done. by rewrite app_nil_r.
Qed.

(** [allAuthors[paper]] lists the authors of the rows of that paper, as
    [first last <email>], in file order and with repetitions; a paper
    without a row has the empty list. *)
Theorem allAuthors_lookup authors paper :
  load_allAuthors authors !!! paper
    = author_text <$> filter (λ row, au_paper row = paper) authors ∧
  (Forall (λ row, au_paper row ≠ paper) authors → load_allAuthors authors !!! paper = []).
Proof.
  split; [apply load_allAuthors_lookup|].
  intros Hno. rewrite load_allAuthors_lookup.
  induction Hno as [|row authors Hrow _ IH]; [done|].
  by rewrite filter_cons_False.
Qed.

(** The author list that a surviving conflict carries holds each distinct
    author string of the paper once, and nothing else. *)
Theorem vetted_authors_distinct w authors row paper alist :
  vet w (load_allAuthors authors) row = Ok (Some (paper, alist)) →
  paper = cf_paper row ∧
  NoDup alist ∧
  ∀ a, a ∈ alist ↔
       ∃ r, r ∈ authors ∧ au_paper r = cf_paper row ∧ a = author_text r.
Proof.
  intros [_ Hv]%vet_Some. injection Hv as -> ->.
  split; [done|]. split; [apply NoDup_list_of_set|].
  intros a. rewrite elem_of_list_of_set, load_allAuthors_lookup, list_elem_of_fmap.
  split.
  - intros (r & -> & [Hp Hr]%list_elem_of_filter). by exists r.
  - intros (r & Hr & Hp & ->). exists r. split; [done|]. by apply list_elem_of_filter.
Qed.

Lemma vetted_authors_distinct_witness :
  NoDup ["B C <b@else.org>"] ∧
  vet world_counting (load_allAuthors (authors_elsewhere ++ authors_elsewhere)) row_univ
  = Ok (Some ("12", ["B C <b@else.org>"])).
Proof.
  assert (vet world_counting (load_allAuthors (authors_elsewhere ++ authors_elsewhere))
            row_univ = Ok (Some ("12", ["B C <b@else.org>"]))) as Hv by (by vm_compute).
  split; [|done].
  exact (proj1 (proj2 (vetted_authors_distinct _ _ _ _ _ Hv))).
Defined.

(** [name.split("<")[1].split("@")[1][:-1]] on an author string as the
    loader writes it: when neither the names nor the address hold a [<], it is the
    part of the address after its [@] if the address has one [@], and an
    [IndexError] if it has none. *)
Theorem author_domain_of_row row :
  Py.contains "<" (au_first row) = false →
  Py.contains "<" (au_last row) = false →
  Py.contains "<" (au_email row) = false →
  (∀ user dom,
     au_email row = user +:+ String "@" dom →
     Py.contains "@" user = false → Py.contains "@" dom = false →
     author_domain (author_text row) = Ok dom) ∧
  (Py.contains "@" (au_email row) = false →
   author_domain (author_text row) = Raise IndexError).
Proof.
  intros Hf Hl He.
  assert (Py.index (Py.split "<" (author_text row)) 1 = Ok (au_email row +:+ ">")) as Hsplit.
  { unfold author_text.
    replace (au_first row +:+ " " +:+ au_last row +:+ " <" +:+ au_email row +:+ ">")
      with ((au_first row +:+ " " +:+ au_last row +:+ " ")
            +:+ String "<" (au_email row +:+ ">")).
    2:{ by rewrite !app_assoc_s. }
    rewrite split_app_sep.
    - rewrite split_no_sep; [done|]. by rewrite contains_app, He.
    - by rewrite !contains_app, Hf, Hl. }
  unfold author_domain. rewrite Hsplit. simpl. split.
  - intros user dom -> Hu Hd.
    replace ((user +:+ String "@" dom) +:+ ">") with (user +:+ String "@" (dom +:+ ">"))
      by (by rewrite app_assoc_s).
    rewrite split_app_sep by done.
    rewrite split_no_sep by (by rewrite contains_app, Hd).
    simpl. by rewrite drop_last_snoc.
  - intros Hno. rewrite split_no_sep; [done|]. by rewrite contains_app, Hno.
Qed.

Lemma author_domain_of_row_witness :
  author_domain (author_text author_bc) = Ok "else.org".
Proof.
  refine (proj1 (author_domain_of_row author_bc _ _ _) "b" "else.org" _ _ _);
    reflexivity.
Defined.

(** ** The author list of a line *)

(** The inner loop writes the authors with [", "] between them and
    nothing after the last. *)
Theorem authors_text_join (l : list string) :
  authors_text 0 (length l) l = sep_join ", " l.
Proof.
  assert (∀ i, authors_text i (i + length l) l = sep_join ", " l) as Hi; [|apply (Hi 0)].
  induction l as [|k l IH]; intros i; [done|].
  cbn [authors_text sep_join length].
  destruct l as [|k' l].
  - rewrite decide_False by (simpl; lia). simpl. by rewrite !app_nil_r_s.
  - rewrite decide_True by (simpl; lia).
    replace (i + S (length (k' :: l))) with (S i + length (k' :: l)) by lia.
    by rewrite IH.
Qed.

(** ** The keys of [names] *)

Lemma lower_char_idem c : Py.lower_char (Py.lower_char c) = Py.lower_char c.
Proof. by destruct c as [[] [] [] [] [] [] [] []]. Qed.

Lemma lower_char_ascii c :
  (nat_of_ascii c <? 128)%nat = true → (nat_of_ascii (Py.lower_char c) <? 128)%nat = true.
Proof. by destruct c as [[] [] [] [] [] [] [] []]. Qed.

Lemma lower_ascii_idem s : Py.lower_ascii (Py.lower_ascii s) = Py.lower_ascii s.
Proof. induction s as [|c s IH]; [done|]. simpl. by rewrite lower_char_idem, IH. Qed.

Lemma isascii_lower_ascii s : Py.isascii s = true → Py.isascii (Py.lower_ascii s) = true.
Proof.
  induction s as [|c s IH]; [done|]. simpl. intros [Hc Hs]%andb_true_iff.
  by rewrite (lower_char_ascii c Hc), IH.
Qed.

(** Every key of [names] is the lower-cased address of a row of the
    reviewer-info export and its value the name of that row.  The key of an
    ASCII address is ASCII and in lower case, so that a look-up under a
    lower-cased address can meet it. *)
Theorem names_keys_lower w pcinfo key name :
  load_names w pcinfo !! key = Some name →
  ∃ row, row ∈ pcinfo ∧ key = Py.lower (W_str_lower w) (pc_email row) ∧
         name = full_name row ∧
         (Py.isascii (pc_email row) = true →
          Py.isascii key = true ∧ Py.lower (W_str_lower w) key = key).
Proof.
  rewrite load_names_lookup. intros Hlast.
  destruct (last _) as [row|] eqn:Hl; [|done].
  apply last_Some in Hl as [l' Hl'].
  assert (row ∈ filter (λ row, Py.lower (W_str_lower w) (pc_email row) = key) pcinfo)
    as Hin.
  { rewrite Hl'. apply elem_of_app. right. left. }
  apply list_elem_of_filter in Hin as [Hkey Hrow].
  simpl in Hlast. injection Hlast as <-.
  exists row. split; [done|]. split; [done|]. split; [done|].
  intros Hasc. subst key.
  assert (Py.lower (W_str_lower w) (pc_email row) = Py.lower_ascii (pc_email row)) as ->.
  { unfold Py.lower. by rewrite Hasc. }
  pose proof (isascii_lower_ascii _ Hasc) as Hlow. split; [done|].
  unfold Py.lower. by rewrite Hlow, lower_ascii_idem.
Qed.

Lemma names_keys_lower_witness :
  Py.lower (W_str_lower world_counting) "alice@univ.edu" = "alice@univ.edu".
Proof.
  destruct (names_keys_lower world_counting pcinfo_alice "alice@univ.edu" "Alice Ames")
    as (row & Hin & Hkey & _ & Hasc); [by vm_compute|].
  apply list_elem_of_singleton in Hin. subst row. by apply Hasc.
Defined.

(** ** Shuffling the conflicts *)

Lemma shuffle_from_pos {A} draw (i : nat) (x : list A) pos :
  (shuffle_from draw i x pos).2 = pos + i.
Proof.
  revert x pos. induction i as [|i IH]; intros x pos; simpl; [lia|].
  rewrite IH. lia.
Qed.

(** The shuffle loop keeps the reviewers and their order in [conflicts],
    rearranges the conflicts of each reviewer, and draws one random number
    less than a reviewer has conflicts. *)
Theorem shuffle_conflicts_spec w cs pos :
  od_keys (shuffle_conflicts w cs pos).1 = od_keys cs ∧
  (∀ e, od_get e (shuffle_conflicts w cs pos).1 ≡ₚ od_get e cs) ∧
  (shuffle_conflicts w cs pos).2 = pos + sum_list ((λ kv, length kv.2 - 1) <$> cs).
Proof.
  split; [apply shuffle_conflicts_keys|]. split; [intros e; apply shuffle_conflicts_get|].
  revert pos. induction cs as [|[k c] cs IH]; intros pos; [simpl; lia|].
  cbn [shuffle_conflicts]. rewrite fmap_cons. cbn [sum_list snd].
  pose proof (shuffle_from_pos (W_random w) (length c - 1) c pos) as Hc.
  unfold shuffle. destruct (shuffle_from (W_random w) (length c - 1) c pos) as [c' pos'].
  specialize (IH pos'). destruct (shuffle_conflicts w cs pos') as [rest pos''].
  cbn [snd] in *. rewrite IH, Hc. unfold id. apply eq_sym, Nat.add_assoc.
Qed.

(** ** The tables of the filter *)

(** Before the shuffle, [conflicts] has one key for each reviewer with a
    surviving row and no other, and lists under it the surviving rows of
    that reviewer in file order. *)
Theorem conflicts_grouped w authors pcconflicts cs ct :
  load_conflicts w (load_allAuthors authors) pcconflicts = Ok (cs, ct) →
  NoDup (od_keys cs) ∧
  (∀ e, e ∈ od_keys cs ↔ ∃ row, row ∈ surviving w authors pcconflicts ∧ cf_email row = e) ∧
  (∀ e, od_get e cs
        = record_of w authors
            <$> filter (λ row, cf_email row = e) (surviving w authors pcconflicts)).
Proof.
  intros Hload. split_and!.
  - apply (load_conflicts_NoDup _ _ _ _ _ Hload). simpl. constructor.
  - intros e. pose proof (load_conflicts_keys _ _ _ _ _ e Hload) as Hk. simpl in Hk.
    rewrite Hk. split; [|by right]. intros [?%elem_of_nil|?]; done.
  - intros e. pose proof (load_conflicts_get _ _ _ _ _ e Hload) as Hg. simpl in Hg.
    by rewrite Hg.
Qed.

Lemma conflicts_grouped_witness :
  ∃ cs ct,
    load_conflicts world_counting (load_allAuthors authors_elsewhere) conflicts_two
      = Ok (cs, ct) ∧
    NoDup (od_keys cs).
Proof.
  assert (∃ cs ct, load_conflicts world_counting (load_allAuthors authors_elsewhere)
                     conflicts_two = Ok (cs, ct)) as (cs & ct & Hload).
  { destruct (load_conflicts_total world_counting (load_allAuthors authors_elsewhere)
                conflicts_two ([], ∅)) as [[cs ct] Hload]; [|by exists cs, ct].
    repeat constructor; by eexists. }
  exists cs, ct. split; [done|].
  exact (proj1 (conflicts_grouped _ _ _ _ _ Hload)).
Defined.

(** When a pair (reviewer, paper) survives more than once, [conflict_types]
    keeps the type of its last surviving row; a pair that does not survive
    reads as the empty string. *)
Theorem conflict_type_last_wins w authors pcconflicts cs ct e p :
  load_conflicts w (load_allAuthors authors) pcconflicts = Ok (cs, ct) →
  ctype_of ct e p =
    match last (filter (λ row, cf_email row = e ∧ cf_paper row = p)
                  (surviving w authors pcconflicts)) with
    | Some row => cf_conflicttype row
    | None => EmptyString
    end.
Proof.
  intros Hload.
  pose proof (load_conflicts_types _ _ _ _ _ e p Hload) as Hty. simpl in Hty.
  unfold ctype_of. rewrite Hty. unfold surviving.
  destruct (last _); [done|].
  unfold lookup_total, map_lookup_total. by rewrite lookup_empty.
Qed.

Lemma conflict_type_last_wins_witness :
  ∃ cs ct,
    load_conflicts world_counting (load_allAuthors authors_elsewhere) conflicts_retyped
      = Ok (cs, ct) ∧
    ctype_of ct "a@univ.edu" "12" = "Pinned conflict".
Proof.
  assert (∃ cs ct, load_conflicts world_counting (load_allAuthors authors_elsewhere)
                     conflicts_retyped = Ok (cs, ct)) as (cs & ct & Hload).
  { destruct (load_conflicts_total world_counting (load_allAuthors authors_elsewhere)
                conflicts_retyped ([], ∅)) as [[cs ct] Hload]; [|by exists cs, ct].
    repeat constructor; by eexists. }
  exists cs, ct. split; [done|].
  rewrite (conflict_type_last_wins _ _ _ _ _ "a@univ.edu" "12" Hload). by vm_compute.
Defined.

(** ** Live runs *)

Lemma script_live w args pcinfo letters :
  Py.truthy (really_send args) = true →
  run_script w args pcinfo letters =
    [EOpenW uidmap_csv; EWrite uidmap_csv header_row;
     ESmtp (Connect "smtp.gmail.com" 587); ESmtp Ehlo; ESmtp Starttls;
     ESmtp (Login (default EmptyString (your_email args)) (your_password args))]
    ++ (letters ≫= live_block w args pcinfo)
    ++ [ESmtp Quit; EClose uidmap_csv].
Proof.
  intros Hlive. unfold run_script, script, session_open, session_close.
  rewrite Hlive. cbn [app]. do 6 f_equal.
  induction letters as [|lt letters IH]; [done|].
  rewrite fmap_cons, bind_cons. cbn [concat]. rewrite <-!app_assoc. rewrite IH.
  unfold block, delivery, live_block.
  rewrite <-?app_assoc. cbn [app]. rewrite <-?app_assoc. reflexivity.
Qed.

(** With [--really-send], a complete command line and an SMTP server that
    accepts every call, the run returns: it has opened the session once,
    then for each reviewer with a surviving conflict, in ascending order of
    address, slept a second, written the audit rows, announced and sent one
    message, and at the end quit the session and closed the audit file. *)
Theorem live_run_sends_each_once w args pcinfo authors pcconflicts :
  Py.truthy (really_send args) = true →
  (∀ k, W_smtp_ok w k = true) →
  well_formed args pcconflicts →
  let run := main w args pcinfo authors pcconflicts initial in
  run.1.1 = Ok tt ∧
  ∃ letters,
    Sorted String.le (lt_recipient <$> letters) ∧
    NoDup (lt_recipient <$> letters) ∧
    (∀ e, e ∈ lt_recipient <$> letters ↔
          ∃ row, row ∈ surviving w authors pcconflicts ∧ cf_email row = e) ∧
    run.2 =
      [EOpenW uidmap_csv; EWrite uidmap_csv header_row;
       ESmtp (Connect "smtp.gmail.com" 587); ESmtp Ehlo; ESmtp Starttls;
       ESmtp (Login (default EmptyString (your_email args)) (your_password args))]
      ++ (letters ≫= live_block w args pcinfo)
      ++ [ESmtp Quit; EClose uidmap_csv].
Proof.
  intros Hlive Hsmtp Hwf run.
  assert (run.1.1 = Ok tt) as Hret by (by apply main_live_returns).
  split; [done|].
  pose proof (main_shape w args pcinfo authors pcconflicts) as Hshape.
  cbv zeta in Hshape. fold run in Hshape.
  destruct Hshape as [[Hfail _]|(cs & ct & Hload & _ & _ & Hok)]; [done|].
  exists (run_letters w args (shuffle_conflicts w cs 0).1 ct).
  destruct (run_letters_spec w args authors pcconflicts cs ct Hload)
    as (Hsorted & Hnd & Hrec & _).
  split_and!; try done.
  rewrite (proj1 (Hok Hret)). by apply script_live.
Qed.

Lemma live_run_sends_each_once_witness :
  (main world_counting args_live pcinfo_alice authors_elsewhere conflicts_two initial).1.1
  = Ok tt.
Proof.
  refine (proj1 (live_run_sends_each_once world_counting args_live pcinfo_alice
                   authors_elsewhere conflicts_two _ _ _)).
  - reflexivity.
  - intros k. reflexivity.
  - unfold well_formed. split_and!; try reflexivity; try (by eexists).
    repeat constructor; by eexists.
Defined.

(** When the connection to the SMTP server fails, the run ends with that
    exception, no message composed; the audit file has been opened before
    and holds the header alone, whatever it held before the run. *)
Theorem failed_connection_truncates w args pcinfo authors pcconflicts old :
  Py.truthy (really_send args) = true →
  complete args →
  Forall (λ row, Py.contains "@" (cf_email row) = true) pcconflicts →
  W_smtp_ok w 0 = false →
  let run := main w args pcinfo authors pcconflicts initial in
  run = (Raise SMTPException, {| urandom_pos := 0; smtp_calls := 1 |},
         [EOpenW uidmap_csv; EWrite uidmap_csv header_row;
          ESmtp (Connect "smtp.gmail.com" 587)]) ∧
  file_after uidmap_csv old run.2 = header_row.
Proof.
  intros Hlive (Hc & Hh & Hn & [email Hemail]) Hrows Hfail run.
  assert (Forall (λ row, ∃ d, Py.index (Py.split "@" (cf_email row)) 1 = Ok d) pcconflicts)
    as Hrows'.
  { eapply Forall_impl; [exact Hrows|]. intros row Hrow. simpl in Hrow.
    destruct (split_with_sep _ _ Hrow) as (a & d & l & Hs). exists d. by rewrite Hs. }
  destruct (load_conflicts_total w (load_allAuthors authors) pcconflicts ([], ∅) Hrows')
    as [[cs ct] Hload].
  change (load_conflicts w (load_allAuthors authors) pcconflicts = Ok (cs, ct)) in Hload.
  assert (run = (Raise SMTPException, {| urandom_pos := 0; smtp_calls := 1 |},
                 [EOpenW uidmap_csv; EWrite uidmap_csv header_row;
                  ESmtp (Connect "smtp.gmail.com" 587)])) as Hrun.
  { unfold run, main. rewrite Hc, Hh, Hn, Hemail, Hlive, Hload. simpl.
    etrans.
    { eapply bind_Ok_eq; [reflexivity|].
      eapply bind_Ok_eq; [reflexivity|]. cbn beta iota zeta.
      eapply bind_Ok_eq; [reflexivity|].
      eapply bind_Ok_eq; [reflexivity|].
      eapply bind_Raise. eapply bind_Raise.
      unfold smtp, initial. simpl. rewrite Hfail. reflexivity. }
    reflexivity. }
  split; [done|]. by rewrite Hrun.
Qed.

Lemma failed_connection_truncates_witness :
  file_after uidmap_csv "email,paper,uid"
    (main world_offline args_live pcinfo_alice authors_elsewhere conflicts_two initial).2
  = header_row.
Proof.
  refine (proj2 (failed_connection_truncates world_offline args_live pcinfo_alice
                   authors_elsewhere conflicts_two _ _ _ _ _)).
  - reflexivity.
  - unfold complete. split_and!; try reflexivity. by eexists.
  - repeat constructor.
  - reflexivity.
Defined.

(** ** A send that fails *)

Section LiveLoop.
Context (w : world).
Context (hashcode senderName senderFirstName sender u : string).
Context (names : gmap string string).
Context (conflicts : conflicts_t) (conflict_types : gmap string (gmap string string)).

Lemma notify_live_run recipient s :
  notify w hashcode senderName senderFirstName sender (Some u) true names conflicts
    conflict_types recipient s =
  (if W_smtp_ok w (smtp_calls s) then Ok tt else Raise SMTPException,
   {| urandom_pos := urandom_pos s + 16 * length (od_get recipient conflicts);
      smtp_calls := S (smtp_calls s) |},
   block w senderName senderFirstName sender u true names
     (letter_at w hashcode conflicts conflict_types recipient (urandom_pos s))).
Proof.
  unfold notify, when. etrans.
  { eapply bind_Ok_eq; [reflexivity|]. eapply bind_Ok_eq.
    - unfold compose. eapply bind_Ok_eq; [reflexivity|].
      eapply bind_Ok_eq; [apply paper_loop_run|]. reflexivity.
    - unfold deliver. eapply bind_Ok_eq; reflexivity. }
  unfold block, delivery, letter_text, letter_at. cbn [lt_recipient lt_entries].
  rewrite !app_nil_r. cbn [app]. by rewrite !app_assoc_s.
Qed.

Lemma notify_loop_live_fails recipients j s :
  j < length recipients →
  (∀ i, i < j → W_smtp_ok w (smtp_calls s + i) = true) →
  W_smtp_ok w (smtp_calls s + j) = false →
  ∃ s',
    mfor recipients
      (notify w hashcode senderName senderFirstName sender (Some u) true names conflicts
         conflict_types) s =
    (Raise SMTPException, s',
     concat (block w senderName senderFirstName sender u true names
               <$> take (S j) (letters_from w hashcode conflicts conflict_types recipients
                                 (urandom_pos s)))).
Proof.
  revert j s. induction recipients as [|r rs IH]; intros j s Hj Hok Hfail; simpl in Hj; [lia|].
  cbn [mfor letters_from]. destruct j as [|j].
  - eexists. erewrite bind_Raise.
    2:{ rewrite notify_live_run. rewrite Nat.add_0_r in Hfail. rewrite Hfail. reflexivity. }
    cbn [firstn fmap list_fmap concat]. rewrite take_0. cbn [fmap list_fmap concat].
    by rewrite app_nil_r.
  - set (s1 := {| urandom_pos := urandom_pos s + 16 * length (od_get r conflicts);
                  smtp_calls := S (smtp_calls s) |}).
    destruct (IH j s1) as [s' Hrun]; [lia| | |].
    + intros i Hi. simpl. rewrite <-Nat.add_succ_r. apply Hok. lia.
    + simpl. by rewrite <-Nat.add_succ_r.
    + assert (W_smtp_ok w (smtp_calls s) = true) as Hhead.
      { rewrite <-(Nat.add_0_r (smtp_calls s)). apply Hok. lia. }
      exists s'. eapply bind_Ok_eq.
      * rewrite notify_live_run, Hhead. reflexivity.
      * exact Hrun.
Qed.

End LiveLoop.

Lemma blocks_live w args pcinfo letters :
  concat (block w
            (default EmptyString (your_name args) +:+ " <"
             +:+ default EmptyString (your_email args) +:+ ">")
            (default EmptyString (your_name args)) (default EmptyString (your_email args))
            (default EmptyString (form_url args)) true (load_names w pcinfo) <$> letters)
  = letters ≫= live_block w args pcinfo.
Proof.
  induction letters as [|lt letters IH]; [done|].
  rewrite fmap_cons, bind_cons. cbn [concat]. rewrite IH. done.
Qed.

Lemma live_blocks_written w args pcinfo letters :
  omap (written uidmap_csv) (letters ≫= live_block w args pcinfo) = letters ≫= audit_rows.
Proof.
  induction letters as [|lt letters IH]; [done|].
  rewrite !bind_cons, omap_app, IH. f_equal.
  unfold live_block. cbn [omap list_omap written]. rewrite omap_app. cbn.
  rewrite app_nil_r. induction (audit_rows lt) as [|row rows IHr]; [done|].
  cbn. rewrite decide_True by done. by f_equal.
Qed.

Lemma length_letters_from w hashcode conflicts conflict_types rs pos :
  length (letters_from w hashcode conflicts conflict_types rs pos) = length rs.
Proof.
  by rewrite <-(length_fmap lt_recipient), letters_from_recipients.
Qed.

Lemma NoDup_length_remove_dups (l k : list string) :
  NoDup l → (∀ e, e ∈ l ↔ e ∈ k) → length l = length (remove_dups k).
Proof.
  intros Hnd Hin. apply Permutation_length, NoDup_Permutation; [done|apply NoDup_remove_dups|].
  intros e. by rewrite elem_of_remove_dups.
Qed.

(** When the server refuses the message to the reviewer at place [j] of
    the ascending order, those before having been sent, the run ends with
    that exception and neither quits the session nor closes the audit file;
    it has by then written the audit rows of that reviewer, whose message
    was not delivered, after those of the reviewers before. *)
Theorem failed_send_keeps_rows w args pcinfo authors pcconflicts j :
  Py.truthy (really_send args) = true →
  well_formed args pcconflicts →
  j < length (remove_dups (cf_email <$> surviving w authors pcconflicts)) →
  (∀ k, k < 4 + j → W_smtp_ok w k = true) →
  W_smtp_ok w (4 + j) = false →
  let run := main w args pcinfo authors pcconflicts initial in
  run.1.1 = Raise SMTPException ∧
  ∃ letters,
    Sorted String.le (lt_recipient <$> letters) ∧
    NoDup (lt_recipient <$> letters) ∧
    (∀ e, e ∈ lt_recipient <$> letters ↔
          ∃ row, row ∈ surviving w authors pcconflicts ∧ cf_email row = e) ∧
    run.2 =
      [EOpenW uidmap_csv; EWrite uidmap_csv header_row;
       ESmtp (Connect "smtp.gmail.com" 587); ESmtp Ehlo; ESmtp Starttls;
       ESmtp (Login (default EmptyString (your_email args)) (your_password args))]
      ++ (take (S j) letters ≫= live_block w args pcinfo) ∧
    omap (written uidmap_csv) run.2 = header_row :: (take (S j) letters ≫= audit_rows).
Proof.
  intros Hlive (Hc & Hh & Hn & [email Hemail] & [u Hu] & Hrows) Hj Hok Hfail run.
  destruct (load_conflicts_total w (load_allAuthors authors) pcconflicts ([], ∅) Hrows)
    as [[cs ct] Hload].
  change (load_conflicts w (load_allAuthors authors) pcconflicts = Ok (cs, ct)) in Hload.
  set (letters := run_letters w args (shuffle_conflicts w cs 0).1 ct).
  destruct (run_letters_spec w args authors pcconflicts cs ct Hload)
    as (Hsorted & Hnd & Hrec & _).
  fold letters in Hsorted, Hnd, Hrec.
  set (recipients := merge_sort String.le (od_keys (shuffle_conflicts w cs 0).1)).
  assert (lt_recipient <$> letters = recipients) as Hrcp by apply letters_from_recipients.
  assert (j < length recipients) as Hlen.
  { rewrite <-Hrcp.
    rewrite (NoDup_length_remove_dups _ (cf_email <$> surviving w authors pcconflicts) Hnd);
      [done|].
    intros e. rewrite Hrec, list_elem_of_fmap. naive_solver. }
  assert (∃ s', run =
            (Raise SMTPException, s',
             [EOpenW uidmap_csv; EWrite uidmap_csv header_row;
              ESmtp (Connect "smtp.gmail.com" 587); ESmtp Ehlo; ESmtp Starttls;
              ESmtp (Login (default EmptyString (your_email args)) (your_password args))]
             ++ (take (S j) letters ≫= live_block w args pcinfo))) as [s' Hrun].
  { set (s4 := {| urandom_pos := 0; smtp_calls := 4 |}).
    edestruct (notify_loop_live_fails w (default EmptyString (hashcode args))
                 (default EmptyString (your_name args) +:+ " <" +:+ email +:+ ">")
                 (default EmptyString (your_name args)) email u (load_names w pcinfo)
                 (shuffle_conflicts w cs 0).1 ct recipients j s4) as [s' Hloop].
    { exact Hlen. }
    { intros i Hi. apply Hok. simpl. lia. }
    { exact Hfail. }
    exists s'. unfold run, main. rewrite Hc, Hh, Hn, Hemail, Hu, Hlive, Hload. simpl.
    rewrite <-blocks_live. rewrite Hemail, Hu. simpl.
    etrans.
    { eapply bind_Ok_eq; [reflexivity|].
      eapply bind_Ok_eq; [reflexivity|]. cbn beta iota zeta.
      eapply bind_Ok_eq; [reflexivity|].
      eapply bind_Ok_eq; [reflexivity|].
      eapply bind_Ok_eq.
      { eapply bind_Ok_eq; [unfold smtp, initial; simpl; rewrite (Hok 0) by lia; reflexivity|].
        eapply bind_Ok_eq; [unfold smtp; simpl; rewrite (Hok 1) by lia; reflexivity|].
        eapply bind_Ok_eq; [unfold smtp; simpl; rewrite (Hok 2) by lia; reflexivity|].
        unfold smtp; simpl; rewrite (Hok 3) by lia; reflexivity. }
      eapply bind_Raise. rewrite !app_assoc_s. exact Hloop. }
    reflexivity. }
  rewrite Hrun. split; [done|]. exists letters. split_and!; try done.
  cbn [snd app omap list_omap written]. rewrite decide_True by done.
  cbn [omap list_omap written]. f_equal. apply live_blocks_written.
Qed.

Lemma failed_send_keeps_rows_witness :
  (main world_refusing args_live pcinfo_alice authors_elsewhere conflicts_two initial).1.1
  = Raise SMTPException.
Proof.
  refine (proj1 (failed_send_keeps_rows world_refusing args_live pcinfo_alice
                   authors_elsewhere conflicts_two 1 _ _ _ _ _)).
  - reflexivity.
  - unfold well_formed. split_and!; try reflexivity; try (by eexists).
    repeat constructor; by eexists.
  - vm_compute. lia.
  - intros k Hk. do 5 (destruct k as [|k]; [reflexivity|]). lia.
  - reflexivity.
Defined.

(** ** A command line without [--form-url] *)

(** Without [--form-url] the dry run opens the audit file and writes its
    header; then, if a conflict survives, composing the first message
    raises [TypeError] and the run ends there, with no row written and the
    file left open; if none survives, the run closes the file and returns. *)
Theorem missing_form_url w args pcinfo authors pcconflicts :
  complete args →
  form_url args = None →
  Py.truthy (really_send args) = false →
  Forall (λ row, Py.contains "@" (cf_email row) = true) pcconflicts →
  let run := main w args pcinfo authors pcconflicts initial in
  (surviving w authors pcconflicts ≠ [] →
   run = (Raise TypeError, initial, [EOpenW uidmap_csv; EWrite uidmap_csv header_row])) ∧
  (surviving w authors pcconflicts = [] →
   run = (Ok tt, initial,
          [EOpenW uidmap_csv; EWrite uidmap_csv header_row; EClose uidmap_csv])).
Proof.
  intros (Hc & Hh & Hn & [email Hemail]) Hurl Hdry Hrows run.
  assert (Forall (λ row, ∃ d, Py.index (Py.split "@" (cf_email row)) 1 = Ok d) pcconflicts)
    as Hrows'.
  { eapply Forall_impl; [exact Hrows|]. intros row Hrow. simpl in Hrow.
    destruct (split_with_sep _ _ Hrow) as (a & d & l & Hs). exists d. by rewrite Hs. }
  destruct (load_conflicts_total w (load_allAuthors authors) pcconflicts ([], ∅) Hrows')
    as [[cs ct] Hload].
  change (load_conflicts w (load_allAuthors authors) pcconflicts = Ok (cs, ct)) in Hload.
  destruct (run_letters_spec w args authors pcconflicts cs ct Hload)
    as (_ & _ & Hrec & _).
  unfold run_letters in Hrec. rewrite letters_from_recipients in Hrec.
  unfold run, main. rewrite Hc, Hh, Hn, Hemail, Hurl, Hdry, Hload. simpl.
  rewrite !bind_lift_Ok. cbn beta iota zeta.
  destruct (merge_sort String.le (od_keys (shuffle_conflicts w cs 0).1))
    as [|r rs] eqn:Hkeys.
  - split.
    + intros Hs. destruct (surviving w authors pcconflicts) as [|row S]; [done|].
      assert (cf_email row ∈ @nil string) as Hin by (apply Hrec; exists row; split; [left|done]).
      by apply elem_of_nil in Hin.
    + intros _. reflexivity.
  - split.
    + intros _. reflexivity.
    + intros Hs. assert (r ∈ r :: rs) as Hin by left.
      apply Hrec in Hin as (row & Hrow & _). rewrite Hs in Hrow.
      by apply elem_of_nil in Hrow.
Qed.

Lemma missing_form_url_witness :
  main world_counting args_no_url pcinfo_alice authors_elsewhere conflicts_two initial
  = (Raise TypeError, initial, [EOpenW uidmap_csv; EWrite uidmap_csv header_row]).
Proof.
  refine (proj1 (missing_form_url world_counting args_no_url pcinfo_alice
                   authors_elsewhere conflicts_two _ _ _ _) _).
  - unfold complete. split_and!; try reflexivity. by eexists.
  - reflexivity.
  - reflexivity.
  - repeat constructor.
  - by vm_compute.
Defined.

(** ** What the dry run prints for a message *)

Lemma repr_byte_printable q c :
  q = Py.squote ∨ q = Py.dquote → all_chars printable (Py.repr_byte q c) = true.
Proof.
  intros [-> | ->]; by destruct c as [[] [] [] [] [] [] [] []].
Qed.

Lemma repr_body_printable q b :
  q = Py.squote ∨ q = Py.dquote → all_chars printable (Py.repr_body q b) = true.
Proof.
  intros Hq. induction b as [|c b IH]; [done|]. simpl.
  by rewrite all_chars_app, repr_byte_printable, IH.
Qed.

(** [print(text_msg)] shows the encoded message as one bytes literal: it
    starts with [b] and a quote, and every character of it is printable
    ASCII, so that a line break of the message appears as backslash-n and
    the whole message takes one line of the console. *)
Theorem str_bytes_printable (b : string) :
  all_chars printable (Py.str_bytes b) = true ∧
  Py.contains (ascii_of_nat 10) (Py.str_bytes b) = false ∧
  ∃ q rest, (q = Py.squote ∨ q = Py.dquote) ∧
            Py.str_bytes b = String "b" (String q rest).
Proof.
  unfold Py.str_bytes.
  set (q := if _ && _ then Py.dquote else Py.squote).
  assert (q = Py.squote ∨ q = Py.dquote) as Hq.
  { unfold q. destruct (_ && _); [by right|by left]. }
  assert (all_chars printable
            (String "b" (String q (Py.repr_body q b +:+ String q EmptyString))) = true)
    as Hall.
  { cbn [all_chars]. rewrite all_chars_app.
    assert (printable q = true) as -> by (by destruct Hq as [-> | ->]).
    rewrite (repr_body_printable q b Hq).
    simpl. by destruct Hq as [-> | ->]. }
  split; [done|]. split; [|by eexists _, _].
  revert Hall. generalize (String "b" (String q (Py.repr_body q b +:+ String q EmptyString))).
  intros s. induction s as [|c s IH]; [done|]. simpl.
  intros [Hc Hs]%andb_true_iff. rewrite (IH Hs), orb_false_r.
  destruct (Ascii.eqb_spec c (ascii_of_nat 10)) as [->|]; [done|done].
Qed.

(** ** The token and its row *)

Lemma encode_base64_alphabet p :
  all_chars in_alphabet (Bcrypt.encode_base64 p) = true.
Proof.
  assert (∀ n, in_alphabet (Bcrypt.code n) = true) as Hcode.
  { intros n. apply bool_decide_eq_true, code_in_alphabet. }
  assert (∀ n p, length p ≤ n →
            all_chars in_alphabet (Bcrypt.encode_base64 p) = true) as Hn.
  { clear p. induction n as [|n IH]; intros p Hp.
    - destruct p; [done|simpl in Hp; lia].
    - destruct p as [|c1 [|c2 [|c3 p]]]; simpl in *;
        rewrite ?Hcode; simpl; try done.
      apply IH. lia. }
  by apply (Hn (length p)).
Qed.

Lemma all_chars_take P n s : all_chars P s = true → all_chars P (Py.take n s) = true.
Proof.
  revert s. induction n as [|n IH]; intros [|c s]; simpl; try done.
  intros [-> Hs]%andb_true_iff. by apply IH.
Qed.

Lemma length_take n s : n ≤ String.length s → String.length (Py.take n s) = n.
Proof.
  revert s. induction n as [|n IH]; intros [|c s]; simpl; try done; try lia.
  intros Hn. f_equal. apply IH. lia.
Qed.

Lemma alphabet_no_comma s :
  all_chars in_alphabet s = true → Py.contains "," s = false.
Proof.
  induction s as [|c s IH]; [done|]. simpl.
  intros [Hc Hs]%andb_true_iff. rewrite (IH Hs), orb_false_r.
  revert Hc. by destruct c as [[] [] [] [] [] [] [] []].
Qed.

Lemma token_alphabet w hashcode recipient paper_id pos :
  all_chars in_alphabet (token w hashcode recipient paper_id pos) = true.
Proof.
  rewrite token_eq. apply all_chars_take, encode_base64_alphabet.
Qed.

(** A token is twelve characters of bcrypt's alphabet
    ([./A-Za-z0-9]), whatever the reviewer, the paper and the secret. *)
Theorem token_format w hashcode recipient paper_id pos :
  String.length (token w hashcode recipient paper_id pos) = 12 ∧
  all_chars in_alphabet (token w hashcode recipient paper_id pos) = true.
Proof.
  split; [|apply token_alphabet].
  rewrite token_eq. apply length_take. rewrite salt_text_length. lia.
Qed.

(** A row of the audit file can be read back: when neither the reviewer's
    address nor the paper number hold a comma, splitting the row at its
    commas gives the address, the paper number and the token (with the
    line break). *)
Theorem audit_row_reads_back w hashcode recipient paper_id pos :
  Py.contains "," recipient = false →
  Py.contains "," paper_id = false →
  Py.split ","
    (uidmap_row recipient paper_id (token w hashcode recipient paper_id pos))
  = [recipient; paper_id; token w hashcode recipient paper_id pos +:+ nl].
Proof.
  intros Hr Hp. unfold uidmap_row.
  set (t := token w hashcode recipient paper_id pos).
  change (recipient +:+ "," +:+ paper_id +:+ "," +:+ t +:+ nl)
    with (recipient +:+ String "," (paper_id +:+ String "," (t +:+ nl))).
  rewrite !split_app_sep by done.
  rewrite split_no_sep; [done|].
  rewrite contains_app. unfold t.
  rewrite (alphabet_no_comma _ (token_alphabet w hashcode recipient paper_id pos)).
  done.
Qed.

Lemma audit_row_reads_back_witness :
  Py.split "," (uidmap_row "a@univ.edu" "12" (token world_counting "hellokitty" "a@univ.edu" "12" 0))
  = ["a@univ.edu"; "12"; token world_counting "hellokitty" "a@univ.edu" "12" 0 +:+ nl].
Proof. apply audit_row_reads_back; reflexivity. Defined.
